(** * lab_regex: a shallow embedding of [regex.py]

    The Python module defines a class hierarchy of [State] objects, the
    class [RegexFSM] whose constructor turns a pattern string into state
    objects, and the recursive backtracking matcher [RegexFSM._match]
    behind [RegexFSM.check_string].

    Modelling choices.
    - A Python [str] is a list of code points; a code point is an [N].
    - Indices [i], [j] are [nat]: the matcher starts them at [0] and only
      ever increments them.
    - Exceptions are values of [exn]; a computation returns a [result].
    - [_match] is a general recursive method.  Its model takes the number
      of nested calls it may still make as a first argument and answers
      [OutOfFuel] once that budget is spent; the theorems below show that
      a budget of [length s + length p + 1] is never spent.  (The
      interpreter's own recursion limit is not part of the model.)
    - State objects live in a heap (a list indexed by address), because
      the constructor of [RegexFSM] mutates the [next_states] list of an
      object that every instance of the class shares.
    - The methods [check_self] and [check_next] of the states are called
      neither by the constructor nor by the matcher and are left out. *)

From Stdlib Require Import NArith Ascii String Lia.
From stdpp Require Import base list.

(** ** Strings *)

Abbreviation char := N (only parsing).
Abbreviation str := (list N) (only parsing).

(** A string literal of Rocq as a Python string. *)
Definition of_string (x : string) : str :=
  N_of_ascii <$> list_ascii_of_string x.

Definition DOT : char := 46%N.
Definition STAR : char := 42%N.
Definition PLUS : char := 43%N.

(** [c in '*+'] for a one-character string [c]. *)
Definition in_star_plus (c : char) : bool :=
  (c =? STAR)%N || (c =? PLUS)%N.

(** [token.isascii()] for a one-character string: the code point is below
    U+0080. *)
Definition isascii (token : char) : bool := (token <? 128)%N.

(** ** Exceptions and results *)

Inductive exn : Type :=
| AttributeError (msg : string)
| IndexError.

Inductive result (A : Type) : Type :=
| Ok (a : A)
| Raise (e : exn)
| OutOfFuel.
Arguments Ok {A} a.
Arguments Raise {A} e.
Arguments OutOfFuel {A}.

#[global] Instance result_ret : MRet result := λ A a, Ok a.
#[global] Instance result_bind : MBind result := λ A B k m,
  match m with
  | Ok a => k a
  | Raise e => Raise e
  | OutOfFuel => OutOfFuel
  end.

(** [l[k]] for a non-negative index: [IndexError] out of range. *)
Definition index {A : Type} (l : list A) (k : nat) : result A :=
  match l !! k with
  | Some x => Ok x
  | None => Raise IndexError
  end.

(** ** State objects *)

Abbreviation addr := nat (only parsing).

(** The concrete subclasses of [State], with the attributes their
    constructors set besides [next_states]. *)
Inductive State_class : Type :=
| StartState
| TerminationState
| DotState
| AsciiState (curr_sym : char)
| StarState (checking_state : addr)
| PlusState (checking_state : addr).

Record State : Type := mkState {
  class_of : State_class;
  next_states : list addr
}.

(** The heap of state objects: the object at address [a] is [h !! a]. *)
Abbreviation heap := (list State) (only parsing).

(** Calling a constructor allocates the object behind every other one. *)
Definition new (st : State) (h : heap) : heap * addr :=
  (h ++ [st], length h).

(** Every [__init__] of the hierarchy assigns [self.next_states] afresh. *)
Definition StartState__init__ : State := mkState StartState [].
Definition TerminationState__init__ : State := mkState TerminationState [].
Definition DotState__init__ : State := mkState DotState [].
Definition AsciiState__init__ (symbol : char) : State :=
  mkState (AsciiState symbol) [].
Definition StarState__init__ (checking_state : addr) : State :=
  mkState (StarState checking_state) [checking_state].
Definition PlusState__init__ (checking_state : addr) : State :=
  mkState (PlusState checking_state) [checking_state].

(** [a.next_states.append(x)] *)
Definition next_states_append (a x : addr) (h : heap) : heap :=
  alter (λ st, mkState (class_of st) (next_states st ++ [x])) a h.

(** ** RegexFSM *)

(** The instance attributes of a [RegexFSM] object. *)
Record RegexFSM : Type := mkRegexFSM {
  regex_expr : str
}.

(** [curr_state] is a class attribute: the one [StartState()] built when
    the class body runs, at the first address of the heap.  No instance
    ever rebinds it. *)
Definition curr_state : addr := 0.
Definition initial_heap : heap := [StartState__init__].

Definition not_supported : string := "Character is not supported".

Definition __init_next_state
    (next_token : char) (prev_state tmp_next_state : addr) (h : heap)
  : heap * result addr :=
  if (next_token =? DOT)%N then
    let '(h, a) := new DotState__init__ h in (h, Ok a)
  else if (next_token =? STAR)%N then
    let '(h, a) := new (StarState__init__ tmp_next_state) h in (h, Ok a)
  else if (next_token =? PLUS)%N then
    let '(h, a) := new (PlusState__init__ tmp_next_state) h in (h, Ok a)
  else if isascii next_token then
    let '(h, a) := new (AsciiState__init__ next_token) h in (h, Ok a)
  else
    (h, Raise (AttributeError not_supported)).

(** The [for char in regex_expr] loop of the constructor.  [prev_state]
    is never reassigned by the loop body. *)
Fixpoint __init__loop
    (chars : str) (prev_state tmp_next_state : addr) (h : heap)
  : heap * result addr :=
  match chars with
  | [] => (h, Ok tmp_next_state)
  | char :: chars =>
      match __init_next_state char prev_state tmp_next_state h with
      | (h, Ok tmp_next_state) =>
          __init__loop chars prev_state tmp_next_state
            (next_states_append prev_state tmp_next_state h)
      | (h, Raise e) => (h, Raise e)
      | (h, OutOfFuel) => (h, OutOfFuel)
      end
  end.

Definition __init__ (regex_expr : str) (h : heap) : heap * result RegexFSM :=
  let self := mkRegexFSM regex_expr in
  let prev_state := curr_state in
  let tmp_next_state := curr_state in
  match __init__loop regex_expr prev_state tmp_next_state h with
  | (h, Ok _) =>
      let '(h, t) := new TerminationState__init__ h in
      (next_states_append prev_state t h, Ok self)
  | (h, Raise e) => (h, Raise e)
  | (h, OutOfFuel) => (h, OutOfFuel)
  end.

(** [_match(self, s, i, p, j)]; [self] is not used by the body. *)
Fixpoint _match (fuel : nat) (s : str) (i : nat) (p : str) (j : nat)
  : result bool :=
  match fuel with
  | O => OutOfFuel
  | S fuel =>
      if j =? length p then Ok (i =? length s)
      else
        next_is_quant ←
          (if j + 1 <? length p
           then c ← index p (j + 1); Ok (in_star_plus c)
           else Ok false);
        char ← index p j;
        first_match ←
          (if i <? length s
           then si ← index s i; Ok ((char =? si)%N || (char =? DOT)%N)
           else Ok false);
        if next_is_quant : bool then
          q ← index p (j + 1);
          if (q =? STAR)%N then
            zero ← _match fuel s i p (j + 2);
            if zero : bool then Ok true
            else
              more ← (if first_match : bool
                      then _match fuel s (i + 1) p j
                      else Ok false);
              if more : bool then Ok true else Ok false
          else
            if negb first_match then Ok false
            else
              again ← _match fuel s (i + 1) p j;
              if again : bool then Ok true
              else _match fuel s (i + 1) p (j + 2)
        else
          if first_match then _match fuel s (i + 1) p (j + 1)
          else Ok false
  end.

(** The number of nested calls that [_match(s, 0, p, 0)] can need. *)
Definition depth (s p : str) : nat := S (length s + length p).

Definition check_string (self : RegexFSM) (input_str : str) : result bool :=
  _match (depth input_str (regex_expr self)) input_str 0 (regex_expr self) 0.

(** The use the module makes of the class in its [__main__] block:
    construct, then match. *)
Definition compile_and_check (regex_pattern input_str : str) (h : heap)
  : result bool :=
  match __init__ regex_pattern h with
  | (_, Ok regex_compiled) => check_string regex_compiled input_str
  | (_, Raise e) => Raise e
  | (_, OutOfFuel) => OutOfFuel
  end.

(** ** Verdicts

    Auxiliary views of the matcher, used to state its properties. *)

(** [first_match] of [_match] as a function of the input, the input
    position and the pattern character. *)
Definition first_match (s : str) (i : nat) (char : char) : bool :=
  match s !! i with
  | Some si => (char =? si)%N || (char =? DOT)%N
  | None => false
  end.

(** The verdict of [_match(s, i, p, j)] as a boolean, read off a run
    whose budget covers every remaining input and pattern position. *)
Definition match_at (s : str) (i : nat) (p : str) (j : nat) : bool :=
  match _match (S ((length s - i) + (length p - j))) s i p j with
  | Ok b => b
  | _ => false
  end.

(** The verdict of [check_string] for pattern [p] on input [s]. *)
Definition accepts (p s : str) : bool := match_at s 0 p 0.

(** [char in (x, '.')] *)
Definition char_ok (c x : char) : bool := (c =? x)%N || (c =? DOT)%N.

(** Whether a pattern starts with a quantifier character. *)
Definition starts_with_quant (p : str) : bool :=
  match p with
  | q :: _ => in_star_plus q
  | [] => false
  end.

(** ** The specification's vocabulary

    The definitions of this part are written from the specification, to
    be compared with the matcher above. *)

(** A pattern without quantifier characters. *)
Definition has_no_quantifier (p : str) : Prop :=
  ∀ c, c ∈ p → in_star_plus c = false.

(** Equality of pattern and input up to the wildcard: the same length,
    and at every position the input character is the pattern character
    unless the latter is ['.']. *)
Definition wildcard_equal (p s : str) : Prop :=
  length s = length p
  ∧ ∀ k c x, p !! k = Some c → s !! k = Some x → x = c ∨ c = DOT.

(** Pattern elements: an atomic element alone, or quantified. *)
Inductive atom : Type :=
| Literal (c : char)
| AnyChar.

Inductive element : Type :=
| Single (a : atom)
| ZeroOrMore (a : atom)
| OneOrMore (a : atom).

Definition to_atom (c : char) : atom :=
  if (c =? DOT)%N then AnyChar else Literal c.

(** The elements of a well-formed pattern: every quantifier follows an
    atomic element of its own.  A pattern that starts with a quantifier,
    or has two quantifiers in a row, has no reading. *)
Fixpoint elements (p : str) : option (list element) :=
  match p with
  | [] => Some []
  | c :: rest =>
      if in_star_plus c then None
      else
        match rest with
        | q :: rest' =>
            if (q =? STAR)%N then
              cons (ZeroOrMore (to_atom c)) <$> elements rest'
            else if (q =? PLUS)%N then
              cons (OneOrMore (to_atom c)) <$> elements rest'
            else cons (Single (to_atom c)) <$> elements rest
        | [] => Some [Single (to_atom c)]
        end
  end.

Definition atom_matches (a : atom) (x : char) : Prop :=
  match a with
  | Literal c => x = c
  | AnyChar => True
  end.

(** The words of one element. *)
Definition element_matches (e : element) (w : str) : Prop :=
  match e with
  | Single a => ∃ x, w = [x] ∧ atom_matches a x
  | ZeroOrMore a => Forall (atom_matches a) w
  | OneOrMore a => w ≠ [] ∧ Forall (atom_matches a) w
  end.

(** A full match: the whole input is cut into one word per element. *)
Definition fully_matches (es : list element) (s : str) : Prop :=
  ∃ ws, Forall2 element_matches es ws ∧ s = concat ws.

(** ** The methods of the states

    [check_self] of [StarState] and [PlusState] calls [check_self] of
    other state objects, through references held in the heap; the model
    takes a budget of nested calls and has no answer ([None]) when the
    budget is spent or an address holds no object. *)

(** The loop of [StarState.check_self]: whether some state of the list
    accepts, asking them in order. *)
Fixpoint any_check_self (check : addr → option bool) (states : list addr)
  : option bool :=
  match states with
  | [] => Some false
  | state :: states =>
      b ← check state;
      if b : bool then Some true else any_check_self check states
  end.

Fixpoint check_self (fuel : nat) (h : heap) (self : addr) (char : char)
  : option bool :=
  match fuel with
  | O => None
  | S fuel =>
      st ← h !! self;
      match class_of st with
      | StartState => Some false
      | TerminationState => Some false
      | DotState => Some true
      | AsciiState curr_sym => Some (char =? curr_sym)%N
      | StarState _ =>
          any_check_self (λ state, check_self fuel h state char)
            (next_states st)
      | PlusState checking_state => check_self fuel h checking_state char
      end
  end.

(** [check_next] returns a state or raises [NotImplementedError]. *)
Inductive check_next_result : Type :=
| Returns (state : addr)
| NotImplementedError (msg : string).

(** The loop of [check_next]: the first state of the list that accepts. *)
Fixpoint first_accepting (check : addr → option bool) (states : list addr)
  : option check_next_result :=
  match states with
  | [] => Some (NotImplementedError "rejected string")
  | state :: states =>
      b ← check state;
      if b : bool then Some (Returns state) else first_accepting check states
  end.

Definition check_next (fuel : nat) (h : heap) (self : addr) (next_char : char)
  : option check_next_result :=
  st ← h !! self;
  first_accepting (λ state, check_self fuel h state next_char)
    (next_states st).

(** ** Vocabulary for the further properties *)

(** The state object that [__init_next_state] builds for a 7-bit token. *)
Definition state_for (next_token : char) (tmp_next_state : addr) : State :=
  if (next_token =? DOT)%N then DotState__init__
  else if (next_token =? STAR)%N then StarState__init__ tmp_next_state
  else if (next_token =? PLUS)%N then PlusState__init__ tmp_next_state
  else AsciiState__init__ next_token.

(** The address bound to [tmp_next_state] when the loop of the
    constructor reaches position [k], for a heap of [base] objects. *)
Definition tmp_at (base k : nat) : addr :=
  match k with
  | O => curr_state
  | S k' => base + k'
  end.

(** The heaps the constructor can run in and leaves behind: the start
    state sits at [curr_state] and lists existing objects, a quantifier
    state refers to an older object and lists it alone, every other
    state lists nothing. *)
Definition state_ok (h : heap) (a : addr) (st : State) : Prop :=
  match class_of st with
  | StartState => Forall (λ b, b < length h) (next_states st)
  | StarState cs | PlusState cs => cs < a ∧ next_states st = [cs]
  | TerminationState | DotState | AsciiState _ => next_states st = []
  end.

Definition heap_ok (h : heap) : Prop :=
  (∃ ns, h !! curr_state = Some (mkState StartState ns))
  ∧ ∀ a st, h !! a = Some st → state_ok h a st.

(** What the state built for position [k] of a pattern answers to
    [check_self]: a quantifier passes the question on to the state
    before it, and at position [0] to the start state. *)
Fixpoint token_accepts (p : str) (k : nat) (ch : char) : bool :=
  match p !! k with
  | None => false
  | Some c =>
      if (c =? DOT)%N then true
      else if in_star_plus c then
        match k with
        | O => false
        | S k' => token_accepts p k' ch
        end
      else (ch =? c)%N
  end.

(** A pattern made of starred characters only. *)
Fixpoint all_starred (p : str) : bool :=
  match p with
  | [] => true
  | _ :: q :: rest => (q =? STAR)%N && all_starred rest
  | [_] => false
  end.

(** The elements the matcher reads in any pattern string: a character
    with the quantifier behind it, if there is one; a quantifier
    character met where an element starts is a literal. *)
Fixpoint reading (p : str) : list element :=
  match p with
  | [] => []
  | c :: rest =>
      match rest with
      | q :: rest' =>
          if (q =? STAR)%N then ZeroOrMore (to_atom c) :: reading rest'
          else if (q =? PLUS)%N then OneOrMore (to_atom c) :: reading rest'
          else Single (to_atom c) :: reading rest
      | [] => [Single (to_atom c)]
      end
  end.

(** * Properties of the matcher *)

Section Matcher.

Implicit Types (s p : str) (i j n : nat) (c q x : N) (b : bool).

Lemma index_lookup {A} (l : list A) k a : l !! k = Some a → index l k = Ok a.
Proof. unfold index. by intros ->. Qed.

Lemma first_match_spec s i c :
  (if i <? length s
   then si ← index s i; Ok ((c =? si)%N || (c =? DOT)%N)
   else Ok false) = Ok (first_match s i c).
Proof.
  unfold first_match, index.
  destruct (Nat.ltb_spec i (length s)) as [Hlt|Hge].
  - destruct (lookup_lt_is_Some_2 s i Hlt) as [si ->]. done.
  - by rewrite lookup_ge_None_2.
Qed.

(** One call of [_match], by the shape of the pattern at [j]. *)
Lemma _match_unfold n s i p j :
  _match (S n) s i p j =
  if j =? length p then Ok (i =? length s)
  else match p !! j with
       | None => Raise IndexError
       | Some c =>
           match p !! (j + 1) with
           | Some q =>
               if (q =? STAR)%N then
                 zero ← _match n s i p (j + 2);
                 if zero : bool then Ok true
                 else if first_match s i c
                      then more ← _match n s (i + 1) p j; Ok more
                      else Ok false
               else if (q =? PLUS)%N then
                 if first_match s i c then
                   again ← _match n s (i + 1) p j;
                   if again : bool then Ok true
                   else _match n s (i + 1) p (j + 2)
                 else Ok false
               else
                 if first_match s i c then _match n s (i + 1) p (j + 1)
                 else Ok false
           | None =>
               if first_match s i c then _match n s (i + 1) p (j + 1)
               else Ok false
           end
       end.
Proof.
  cbn [_match]. destruct (j =? length p) eqn:Hj; [done|].
  destruct (Nat.ltb_spec (j + 1) (length p)) as [Hlt|Hge].
  - destruct (lookup_lt_is_Some_2 p (j + 1) Hlt) as [q Hq].
    destruct (lookup_lt_is_Some_2 p j ltac:(lia)) as [c Hc].
    rewrite Hq, Hc, (index_lookup _ _ _ Hq), (index_lookup _ _ _ Hc).
    cbn [mbind result_bind]. rewrite first_match_spec.
    cbn [mbind result_bind]. unfold in_star_plus.
    destruct (q =? STAR)%N eqn:Hs; cbn [orb].
    + destruct (_match n s i p (j + 2)) as [[]| |]; cbn; try done.
      destruct (first_match s i c); cbn; [|done].
      by destruct (_match n s (i + 1) p j) as [[]| |].
    + destruct (q =? PLUS)%N eqn:Hp; [|done].
      by destruct (first_match s i c).
  - rewrite (lookup_ge_None_2 p (j + 1)) by lia. cbn [mbind result_bind].
    destruct (p !! j) as [c|] eqn:Hc.
    + rewrite (index_lookup _ _ _ Hc). cbn [mbind result_bind].
      by rewrite first_match_spec.
    + unfold index. by rewrite Hc.
Qed.

Lemma first_match_lt s i c : first_match s i c = true → i < length s.
Proof.
  unfold first_match. destruct (s !! i) eqn:E; [|done].
  intros _. by eapply lookup_lt_Some.
Qed.

Lemma first_match_true s i c :
  first_match s i c = true ↔ ∃ x, s !! i = Some x ∧ (c = x ∨ c = DOT).
Proof.
  unfold first_match. destruct (s !! i) as [x|].
  - rewrite orb_true_iff, !N.eqb_eq. split.
    + intros Hc. by exists x.
    + by intros (? & [= <-] & Hc).
  - split; [done|]. by intros (? & ? & _).
Qed.

(** ** Termination: the budget [length s - i + length p - j + 1] is
    enough, and a larger one changes nothing. *)

Lemma _match_total n s i p j :
  j ≤ length p → (length s - i) + (length p - j) < n →
  ∃ b, _match n s i p j = Ok b.
Proof.
  revert i j. induction n as [|n IH]; intros i j Hj Hn; [lia|].
  rewrite _match_unfold.
  destruct (Nat.eqb_spec j (length p)) as [->|Hne]; [by eexists|].
  destruct (lookup_lt_is_Some_2 p j ltac:(lia)) as [c ->].
  assert (Hfm : first_match s i c = true → i < length s)
    by apply first_match_lt.
  destruct (p !! (j + 1)) as [q|] eqn:Hq.
  - apply lookup_lt_Some in Hq.
    destruct (IH i (j + 2)) as [b0 ->]; [lia..|].
    destruct (first_match s i c).
    + specialize (Hfm eq_refl).
      destruct (IH (i + 1) j) as [b1 ->]; [lia..|].
      destruct (IH (i + 1) (j + 2)) as [b2 ->]; [lia..|].
      destruct (IH (i + 1) (j + 1)) as [b3 ->]; [lia..|].
      cbn. destruct (q =? STAR)%N, (q =? PLUS)%N, b0, b1; by eexists.
    + cbn. destruct (q =? STAR)%N, (q =? PLUS)%N, b0; by eexists.
  - destruct (first_match s i c); [|by eexists].
    apply IH; [lia|]. specialize (Hfm eq_refl). lia.
Qed.

Lemma _match_agree n m s i p j :
  j ≤ length p →
  (length s - i) + (length p - j) < n →
  (length s - i) + (length p - j) < m →
  _match n s i p j = _match m s i p j.
Proof.
  revert m i j. induction n as [|n IH]; intros m i j Hj Hn Hm; [lia|].
  destruct m as [|m]; [lia|].
  rewrite !_match_unfold.
  destruct (Nat.eqb_spec j (length p)) as [->|Hne]; [done|].
  destruct (lookup_lt_is_Some_2 p j ltac:(lia)) as [c ->].
  assert (Hfm : first_match s i c = true → i < length s)
    by apply first_match_lt.
  destruct (p !! (j + 1)) as [q|] eqn:Hq.
  - apply lookup_lt_Some in Hq.
    rewrite (IH m i (j + 2)) by lia.
    destruct (first_match s i c); [|done].
    specialize (Hfm eq_refl).
    rewrite (IH m (i + 1) j), (IH m (i + 1) (j + 2)),
      (IH m (i + 1) (j + 1)) by lia.
    done.
  - destruct (first_match s i c); [|done].
    specialize (Hfm eq_refl). apply IH; lia.
Qed.

Lemma _match_eq n s i p j :
  j ≤ length p → (length s - i) + (length p - j) < n →
  _match n s i p j = Ok (match_at s i p j).
Proof.
  intros Hj Hn. unfold match_at.
  rewrite (_match_agree (S _) n s i p j Hj (Nat.lt_succ_diag_r _) Hn).
  by destruct (_match_total n s i p j Hj Hn) as [b ->].
Qed.

(** The recursion of [_match] on verdicts. *)
Lemma match_at_unfold s i p j :
  j ≤ length p →
  match_at s i p j =
  if j =? length p then i =? length s
  else match p !! j with
       | None => false
       | Some c =>
           match p !! (j + 1) with
           | Some q =>
               if (q =? STAR)%N then
                 match_at s i p (j + 2)
                 || (first_match s i c && match_at s (i + 1) p j)
               else if (q =? PLUS)%N then
                 first_match s i c
                 && (match_at s (i + 1) p j || match_at s (i + 1) p (j + 2))
               else first_match s i c && match_at s (i + 1) p (j + 1)
           | None => first_match s i c && match_at s (i + 1) p (j + 1)
           end
       end.
Proof.
  intros Hj. unfold match_at at 1. rewrite _match_unfold.
  destruct (Nat.eqb_spec j (length p)) as [->|Hne]; [done|].
  destruct (lookup_lt_is_Some_2 p j ltac:(lia)) as [c ->].
  assert (Hfm : first_match s i c = true → i < length s)
    by apply first_match_lt.
  destruct (p !! (j + 1)) as [q|] eqn:Hq.
  - apply lookup_lt_Some in Hq.
    rewrite (_match_eq _ s i p (j + 2)) by lia.
    destruct (first_match s i c).
    + specialize (Hfm eq_refl).
      rewrite (_match_eq _ s (i + 1) p j), (_match_eq _ s (i + 1) p (j + 2)),
        (_match_eq _ s (i + 1) p (j + 1)) by lia.
      cbn.
      by destruct (q =? STAR)%N, (q =? PLUS)%N,
        (match_at s i p (j + 2)), (match_at s (i + 1) p j).
    + cbn. by destruct (q =? STAR)%N, (q =? PLUS)%N, (match_at s i p (j + 2)).
  - destruct (first_match s i c); [|done].
    specialize (Hfm eq_refl). by rewrite _match_eq by lia.
Qed.

(** The budget grows with the input for good reason: on [n] copies of
    ['a'] the pattern ["a*"] nests [n + 2] calls. *)
Lemma _match_depth_needed n k i :
  n + i ≤ S k →
  _match n (replicate k 97%N) i [97%N; STAR] 0 = OutOfFuel.
Proof.
  revert i. induction n as [|n IH]; intros i Hn; [done|].
  rewrite _match_unfold. cbn [length Nat.eqb lookup list_lookup Nat.add].
  rewrite N.eqb_refl. destruct n as [|n]; [done|].
  rewrite (_match_unfold n _ i _ 2).
  cbn [length Nat.eqb Nat.add mbind result_bind].
  rewrite length_replicate.
  destruct (Nat.eqb_spec i k) as [->|Hne]; [lia|].
  assert (Hfm : first_match (replicate k 97%N) i 97%N = true).
  { apply first_match_true. exists 97%N. split; [|by left].
    apply lookup_replicate_2. lia. }
  rewrite Hfm, IH by lia. done.
Qed.

(** ** The matcher only looks at what lies ahead of the two cursors. *)

Lemma first_match_drop a s i c :
  first_match (drop a s) i c = first_match s (a + i) c.
Proof. unfold first_match. by rewrite lookup_drop. Qed.

Lemma match_at_shift (a b : nat) n s i p j :
  a + i ≤ length s → b + j ≤ length p →
  (length s - (a + i)) + (length p - (b + j)) < n →
  match_at (drop a s) i (drop b p) j = match_at s (a + i) p (b + j).
Proof.
  revert i j. induction n as [|n IH]; intros i j Hi Hj Hn; [lia|].
  rewrite (match_at_unfold (drop a s)) by (rewrite length_drop; lia).
  rewrite (match_at_unfold s) by lia.
  rewrite !length_drop, !lookup_drop.
  replace (b + (j + 1)) with (b + j + 1) by lia.
  destruct (Nat.eqb_spec j (length p - b)) as [->|Hne].
  { replace (b + (length p - b)) with (length p) by lia.
    rewrite Nat.eqb_refl.
    destruct (Nat.eqb_spec i (length s - a)), (Nat.eqb_spec (a + i) (length s));
      done || lia. }
  destruct (Nat.eqb_spec (b + j) (length p)) as [?|_]; [lia|].
  destruct (p !! (b + j)) as [c|]; [|done].
  rewrite !first_match_drop.
  assert (Hfm : first_match s (a + i) c = true → a + i < length s)
    by apply first_match_lt.
  assert (IHi : ∀ j', b + j' ≤ length p → j < j' →
    match_at (drop a s) i (drop b p) j' = match_at s (a + i) p (b + j')).
  { intros j' ??. apply IH; lia. }
  assert (IHs : ∀ j', first_match s (a + i) c = true →
    b + j' ≤ length p → j ≤ j' →
    match_at (drop a s) (i + 1) (drop b p) j'
    = match_at s (a + i + 1) p (b + j')).
  { intros j' Hc ??. specialize (Hfm Hc).
    replace (a + i + 1) with (a + (i + 1)) by lia. apply IH; lia. }
  replace (b + j + 2) with (b + (j + 2)) by lia.
  replace (b + j + 1) with (b + (j + 1)) by lia.
  destruct (p !! (b + (j + 1))) as [q|] eqn:Hq.
  - apply lookup_lt_Some in Hq. rewrite IHi by lia.
    destruct (first_match s (a + i) c) eqn:Hc; [|done].
    by rewrite !IHs by (done || lia).
  - destruct (first_match s (a + i) c) eqn:Hc; [|done].
    by rewrite IHs by (done || lia).
Qed.

Lemma match_at_drop s i p j :
  i ≤ length s → j ≤ length p →
  match_at s i p j = accepts (drop j p) (drop i s).
Proof.
  intros Hi Hj. unfold accepts.
  rewrite (match_at_shift i j (S (length s + length p))) by lia.
  by rewrite !Nat.add_0_r.
Qed.

(** ** [check_string] always answers, with the verdict [accepts]. *)

Lemma check_string_accepts self s :
  check_string self s = Ok (accepts (regex_expr self) s).
Proof. unfold check_string, depth, accepts. apply _match_eq; lia. Qed.

(** ** The recursion on the pattern and the input themselves *)

Lemma accepts_nil s : accepts [] s = bool_decide (s = []).
Proof.
  unfold accepts. rewrite match_at_unfold by done. by destruct s.
Qed.

Lemma first_match_0 s c :
  first_match s 0 c = match s with x :: _ => char_ok c x | [] => false end.
Proof. by destruct s. Qed.

Lemma accepts_star c p s :
  accepts (c :: STAR :: p) s =
  accepts p s
  || match s with
     | x :: s' => char_ok c x && accepts (c :: STAR :: p) s'
     | [] => false
     end.
Proof.
  unfold accepts at 1. rewrite match_at_unfold by (cbn; lia).
  cbn [length Nat.eqb lookup list_lookup Nat.add]. rewrite N.eqb_refl.
  rewrite (match_at_drop s 0 _ 2) by (cbn; lia). cbn [drop].
  rewrite first_match_0. destruct s as [|x s']; [done|].
  by rewrite (match_at_drop (x :: s') 1 _ 0) by (cbn; lia).
Qed.

Lemma accepts_plus c p s :
  accepts (c :: PLUS :: p) s =
  match s with
  | x :: s' => char_ok c x && (accepts (c :: PLUS :: p) s' || accepts p s')
  | [] => false
  end.
Proof.
  unfold accepts at 1. rewrite match_at_unfold by (cbn; lia).
  cbn [length Nat.eqb lookup list_lookup Nat.add].
  change (PLUS =? STAR)%N with false. rewrite N.eqb_refl.
  rewrite first_match_0. destruct s as [|x s']; [done|].
  rewrite (match_at_drop (x :: s') 1 _ 0) by (cbn; lia).
  by rewrite (match_at_drop (x :: s') 1 _ 2) by (cbn; lia).
Qed.

Lemma accepts_plain c p s :
  starts_with_quant p = false →
  accepts (c :: p) s =
  match s with
  | x :: s' => char_ok c x && accepts p s'
  | [] => false
  end.
Proof.
  intros Hp. unfold accepts at 1. rewrite match_at_unfold by (cbn; lia).
  cbn [length Nat.eqb lookup list_lookup Nat.add].
  rewrite first_match_0.
  assert (Hrec :
    match s with x :: _ => char_ok c x | [] => false end
    && match_at s 1 (c :: p) 1
    = match s with
      | x :: s' => char_ok c x && accepts p s'
      | [] => false
      end).
  { destruct s as [|x s']; [done|].
    by rewrite (match_at_drop (x :: s') 1 _ 1) by (cbn; lia). }
  destruct p as [|q p']; [done|]. cbn in Hp. unfold in_star_plus in Hp.
  cbn [lookup list_lookup].
  by apply orb_false_iff in Hp as [-> ->].
Qed.

End Matcher.

(** * Properties of the constructor *)

Section Constructor.

Implicit Types (p chars : str) (h : list State) (c : N) (st : State).

Lemma isascii_false_not_special c :
  isascii c = false →
  (c =? DOT)%N = false ∧ (c =? STAR)%N = false ∧ (c =? PLUS)%N = false.
Proof.
  unfold isascii, DOT, STAR, PLUS. intros Hc%N.ltb_ge.
  repeat split; apply N.eqb_neq; lia.
Qed.

Lemma __init_next_state_ascii c prev tmp h :
  isascii c = true →
  ∃ st, __init_next_state c prev tmp h = (h ++ [st], Ok (length h)).
Proof.
  intros Hc. unfold __init_next_state, new. rewrite Hc.
  destruct (c =? DOT)%N, (c =? STAR)%N, (c =? PLUS)%N; by eexists.
Qed.

Lemma __init_next_state_not_ascii c prev tmp h :
  isascii c = false →
  __init_next_state c prev tmp h = (h, Raise (AttributeError not_supported)).
Proof.
  intros Hc. unfold __init_next_state.
  destruct (isascii_false_not_special c Hc) as (-> & -> & ->).
  by rewrite Hc.
Qed.

Lemma __init__loop_ok chars prev tmp h :
  forallb isascii chars = true →
  ∃ h' a, __init__loop chars prev tmp h = (h', Ok a).
Proof.
  revert tmp h. induction chars as [|c chars IH]; intros tmp h Hall; cbn.
  - by eexists _, _.
  - cbn in Hall. apply andb_true_iff in Hall as [Hc Hall].
    destruct (__init_next_state_ascii c prev tmp h Hc) as [st ->].
    by apply IH.
Qed.

Lemma __init__loop_fail chars prev tmp h :
  forallb isascii chars = false →
  ∃ h', __init__loop chars prev tmp h
        = (h', Raise (AttributeError not_supported)).
Proof.
  revert tmp h. induction chars as [|c chars IH]; intros tmp h Hall; cbn.
  - done.
  - cbn in Hall. destruct (isascii c) eqn:Hc.
    + destruct (__init_next_state_ascii c prev tmp h Hc) as [st ->].
      by apply IH.
    + rewrite __init_next_state_not_ascii by done. by eexists.
Qed.

Lemma forallb_isascii_false chars :
  forallb isascii chars = false → ∃ c, c ∈ chars ∧ isascii c = false.
Proof.
  induction chars as [|c chars IH]; cbn; [done|].
  destruct (isascii c) eqn:Hc; cbn.
  - intros (c' & ? & ?)%IH. exists c'. split; [by right|done].
  - intros _. exists c. split; [left|done].
Qed.

(** The value the constructor returns, or the exception it raises. *)
Lemma __init___result p h :
  (__init__ p h).2 =
  if forallb isascii p then Ok (mkRegexFSM p)
  else Raise (AttributeError not_supported).
Proof.
  unfold __init__. destruct (forallb isascii p) eqn:Hall.
  - by destruct (__init__loop_ok p curr_state curr_state h Hall)
      as (h' & a & ->).
  - by destruct (__init__loop_fail p curr_state curr_state h Hall)
      as (h' & ->).
Qed.

Lemma compile_and_check_result p s h :
  compile_and_check p s h =
  if forallb isascii p then Ok (accepts p s)
  else Raise (AttributeError not_supported).
Proof.
  unfold compile_and_check.
  pose proof (__init___result p h) as Hr.
  destruct (__init__ p h) as [h' [self|e|]]; cbn in Hr;
    destruct (forallb isascii p); try done.
  - injection Hr as ->. apply check_string_accepts.
  - by injection Hr as ->.
Qed.

(** The heap after the loop: one object per character, each appended to
    the [next_states] of [prev_state]; nothing else changes. *)
Lemma __init__loop_heap chars prev tmp h h' a st :
  __init__loop chars prev tmp h = (h', Ok a) →
  h !! prev = Some st →
  length h' = length h + length chars
  ∧ h' !! prev
    = Some (mkState (class_of st)
              (next_states st ++ seq (length h) (length chars)))
  ∧ ∀ k, k < length h → k ≠ prev → h' !! k = h !! k.
Proof.
  revert tmp h st.
  induction chars as [|c chars IH]; intros tmp h st Hrun Hprev; cbn in Hrun.
  - injection Hrun as <- <-. cbn. rewrite Nat.add_0_r, app_nil_r.
    by destruct st.
  - destruct (isascii c) eqn:Hc.
    2: { by rewrite __init_next_state_not_ascii in Hrun. }
    destruct (__init_next_state_ascii c prev tmp h Hc) as [new Hnew].
    rewrite Hnew in Hrun.
    pose proof (lookup_lt_Some _ _ _ Hprev) as Hlt.
    eapply IH in Hrun as (Hlen & Hst & Hframe).
    2: { unfold next_states_append. rewrite list_lookup_alter_eq.
         rewrite lookup_app_l by done. by rewrite Hprev. }
    unfold next_states_append in *.
    rewrite length_alter, length_app in *. cbn in *.
    split; [lia|]. split.
    + rewrite Hst. do 2 f_equal. rewrite <- app_assoc. cbn.
      do 3 f_equal. lia.
    + intros k Hk Hne. rewrite Hframe by lia.
      rewrite list_lookup_alter_ne by done. by rewrite lookup_app_l.
Qed.

(** Every successful construction appends [length p + 1] addresses to the
    [next_states] of the shared [curr_state]. *)
Lemma __init___heap p h h' self st :
  __init__ p h = (h', Ok self) →
  h !! curr_state = Some st →
  length h' = length h + S (length p)
  ∧ h' !! curr_state
    = Some (mkState (class_of st)
              (next_states st ++ seq (length h) (S (length p))))
  ∧ ∀ k, k < length h → k ≠ curr_state → h' !! k = h !! k.
Proof.
  unfold __init__, new. intros Hrun Hst.
  destruct (__init__loop p curr_state curr_state h) as [h1 [a|e|]] eqn:Hloop;
    try done.
  injection Hrun as <- <-.
  destruct (__init__loop_heap _ _ _ _ _ _ _ Hloop Hst) as (Hlen & Hst1 & Hframe).
  pose proof (lookup_lt_Some _ _ _ Hst) as Hlt.
  unfold next_states_append.
  rewrite length_alter, length_app. cbn. split; [lia|]. split.
  - rewrite list_lookup_alter_eq, lookup_app_l by lia. rewrite Hst1. cbn.
    do 2 f_equal. rewrite <- app_assoc. f_equal.
    change (length h :: seq (S (length h)) (length p))
      with (seq (length h) (S (length p))).
    rewrite seq_S. do 2 f_equal. lia.
  - intros k Hk Hne. rewrite list_lookup_alter_ne by done.
    rewrite lookup_app_l by lia. by apply Hframe.
Qed.

End Constructor.

(** * The matcher against the specification's vocabulary *)

Section Specification.

Implicit Types (s p w : str) (c q x : N) (es : list element) (a : atom).

Lemma char_ok_spec c x : char_ok c x = true ↔ x = c ∨ c = DOT.
Proof.
  unfold char_ok. rewrite orb_true_iff, !N.eqb_eq.
  split; (intros [?|?]; [by left|by right]).
Qed.

Lemma char_ok_atom c x : char_ok c x = true ↔ atom_matches (to_atom c) x.
Proof.
  rewrite char_ok_spec. unfold to_atom.
  destruct (N.eqb_spec c DOT) as [Hc|Hc]; cbn.
  - split; [done|by right].
  - split; [by intros [?|?]|by left].
Qed.

(** ** Patterns without quantifiers *)

Lemma wildcard_equal_nil s : wildcard_equal [] s ↔ s = [].
Proof.
  unfold wildcard_equal. split.
  - intros [Hlen _]. by destruct s.
  - intros ->. split; [done|]. by intros [].
Qed.

Lemma wildcard_equal_cons c p s :
  wildcard_equal (c :: p) s ↔
  ∃ x s', s = x :: s' ∧ (x = c ∨ c = DOT) ∧ wildcard_equal p s'.
Proof.
  unfold wildcard_equal. split.
  - intros [Hlen Hall]. destruct s as [|x s']; [done|].
    exists x, s'. split; [done|]. split; [by apply (Hall 0)|].
    split; [by injection Hlen|].
    intros k c' x' ??. by apply (Hall (S k)).
  - intros (x & s' & -> & Hx & Hlen & Hall). split; [cbn; lia|].
    intros [|k] c' x' Hc' Hx'; cbn in *; [congruence|by eapply Hall].
Qed.

Lemma has_no_quantifier_cons c p :
  has_no_quantifier (c :: p) →
  starts_with_quant p = false ∧ has_no_quantifier p.
Proof.
  intros Hq. split.
  - destruct p as [|q p]; [done|]. apply Hq. right. left.
  - intros q ?. apply Hq. by right.
Qed.

Lemma accepts_no_quantifier p s :
  has_no_quantifier p → accepts p s = true ↔ wildcard_equal p s.
Proof.
  revert s. induction p as [|c p IH]; intros s Hq.
  - rewrite accepts_nil, wildcard_equal_nil. apply bool_decide_eq_true.
  - apply has_no_quantifier_cons in Hq as [Hp Hq].
    rewrite accepts_plain, wildcard_equal_cons by done.
    destruct s as [|x s'].
    + split; [done|]. by intros (? & ? & ? & _).
    + rewrite andb_true_iff, char_ok_spec, IH by done. split.
      * intros [Hx Hs]. by exists x, s'.
      * intros (? & ? & [= <- <-] & Hx & Hs). done.
Qed.

(** ** Well-formed patterns *)

Lemma fully_matches_nil s : fully_matches [] s ↔ s = [].
Proof.
  unfold fully_matches. split.
  - intros (ws & Hws & ->). by apply Forall2_nil_inv_l in Hws as ->.
  - intros ->. by exists [].
Qed.

Lemma fully_matches_cons e es s :
  fully_matches (e :: es) s ↔
  ∃ w s', s = w ++ s' ∧ element_matches e w ∧ fully_matches es s'.
Proof.
  unfold fully_matches. split.
  - intros (ws & Hws & ->).
    apply Forall2_cons_inv_l in Hws as (w & ws' & Hw & Hws' & ->).
    exists w, (concat ws'). eauto.
  - intros (w & s' & -> & Hw & ws' & Hws' & ->).
    exists (w :: ws'). split; [by constructor|done].
Qed.

(** Zero or more occurrences, then the rest. *)
Lemma accepts_star_spec c p s :
  accepts (c :: STAR :: p) s = true ↔
  ∃ w s', s = w ++ s' ∧ Forall (atom_matches (to_atom c)) w
          ∧ accepts p s' = true.
Proof.
  split.
  - induction s as [|x s IH]; rewrite accepts_star, orb_true_iff.
    + intros [Hp|?]; [|done]. by exists [], [].
    + rewrite andb_true_iff, char_ok_atom.
      intros [Hp|[Hx (w & s' & -> & Hw & Hp)%IH]].
      * by exists [], (x :: s).
      * exists (x :: w), s'. by repeat constructor.
  - intros (w & s' & -> & Hw & Hp).
    induction Hw as [|x w Hx Hw IH]; rewrite accepts_star, orb_true_iff.
    + by left.
    + right. cbn. rewrite andb_true_iff, char_ok_atom. done.
Qed.

(** One or more occurrences, then the rest. *)
Lemma accepts_plus_spec c p s :
  accepts (c :: PLUS :: p) s = true ↔
  ∃ w s', s = w ++ s' ∧ w ≠ [] ∧ Forall (atom_matches (to_atom c)) w
          ∧ accepts p s' = true.
Proof.
  split.
  - induction s as [|x s IH]; rewrite accepts_plus; [done|].
    rewrite andb_true_iff, orb_true_iff, char_ok_atom.
    intros [Hx [(w & s' & -> & _ & Hw & Hp)%IH|Hp]].
    + exists (x :: w), s'. by repeat constructor.
    + exists [x], s. by repeat constructor.
  - intros (w & s' & -> & Hne & Hw & Hp).
    induction Hw as [|x w Hx Hw IH]; [done|].
    rewrite accepts_plus. cbn.
    rewrite andb_true_iff, orb_true_iff, char_ok_atom. split; [done|].
    destruct w as [|y w]; [by right|]. left. by apply IH.
Qed.

Lemma accepts_single_spec c p s :
  starts_with_quant p = false →
  accepts (c :: p) s = true ↔
  ∃ w s', s = w ++ s' ∧ (∃ x, w = [x] ∧ atom_matches (to_atom c) x)
          ∧ accepts p s' = true.
Proof.
  intros Hp. rewrite accepts_plain by done. destruct s as [|x s].
  - split; [done|]. by intros ([] & ? & ? & (? & ? & ?) & ?).
  - rewrite andb_true_iff, char_ok_atom. split.
    + intros [Hx Hs]. exists [x], s. eauto.
    + intros (w & s' & Hs & (y & -> & Hy) & Hacc). by injection Hs as -> ->.
Qed.

Lemma elements_cons_cons c q p :
  elements (c :: q :: p) =
  if in_star_plus c then None
  else if (q =? STAR)%N then cons (ZeroOrMore (to_atom c)) <$> elements p
  else if (q =? PLUS)%N then cons (OneOrMore (to_atom c)) <$> elements p
  else cons (Single (to_atom c)) <$> elements (q :: p).
Proof. reflexivity. Qed.

Lemma accepts_elements p es s :
  elements p = Some es → accepts p s = true ↔ fully_matches es s.
Proof.
  remember (length p) as n eqn:Hn. revert p es s Hn.
  induction (lt_wf n) as [n _ IH]. intros p es s -> Hes.
  destruct p as [|c [|q p]]; [cbn in Hes..|rewrite elements_cons_cons in Hes].
  - injection Hes as <-.
    rewrite accepts_nil, fully_matches_nil. apply bool_decide_eq_true.
  - destruct (in_star_plus c); [done|]. injection Hes as <-.
    rewrite accepts_single_spec, fully_matches_cons by done.
    setoid_rewrite accepts_nil. setoid_rewrite bool_decide_eq_true.
    setoid_rewrite fully_matches_nil. done.
  - destruct (in_star_plus c); [done|].
    destruct (N.eqb_spec q STAR) as [->|Hs];
      [|destruct (N.eqb_spec q PLUS) as [->|Hp]].
    + destruct (elements p) as [es'|] eqn:Hes'; [|done].
      injection Hes as <-.
      rewrite accepts_star_spec, fully_matches_cons.
      by setoid_rewrite (IH (length p) ltac:(cbn; lia) p es' _ eq_refl Hes').
    + destruct (elements p) as [es'|] eqn:Hes'; [|done].
      injection Hes as <-.
      rewrite accepts_plus_spec, fully_matches_cons.
      setoid_rewrite (IH (length p) ltac:(cbn; lia) p es' _ eq_refl Hes').
      cbn. split; intros (w & s' & ?); exists w, s'; tauto.
    + destruct (elements (q :: p)) as [es'|] eqn:Hes'; [|done].
      injection Hes as <-.
      rewrite accepts_single_spec, fully_matches_cons.
      * by setoid_rewrite
          (IH (length (q :: p)) ltac:(cbn; lia) (q :: p) es' _ eq_refl Hes').
      * cbn. unfold in_star_plus.
        apply orb_false_iff. by rewrite !N.eqb_neq.
Qed.

End Specification.

(** * The claims of the specification *)

Ltac run_example :=
  intros; rewrite compile_and_check_result; vm_compute; reflexivity.

(** C1: when the pattern character at [j] is followed by ['*'], a call at
    [(i, j)] first recurses at [(i, j+2)] and answers true if that does;
    otherwise, if [first_match] holds, it recurses at [(i+1, j)] and
    answers what that does; otherwise it answers false.  So the verdict is
    the disjunction of the two branches, and ["a*"] accepts the empty
    string and ["aaaa"] and rejects ["b"]. *)
Theorem C1_star_tries_zero_then_one_more :
  (∀ n (s : list N) i (p : list N) j c,
     p !! j = Some c → p !! (j + 1) = Some STAR →
     _match (S n) s i p j =
     zero ← _match n s i p (j + 2);
     if zero : bool then Ok true
     else if first_match s i c then more ← _match n s (i + 1) p j; Ok more
     else Ok false)
  ∧ (∀ (s : list N) i (p : list N) j c,
     p !! j = Some c → p !! (j + 1) = Some STAR →
     match_at s i p j
     = match_at s i p (j + 2) || (first_match s i c && match_at s (i + 1) p j))
  ∧ (∀ h, compile_and_check (of_string "a*") [] h = Ok true)
  ∧ (∀ h, compile_and_check (of_string "a*") (of_string "aaaa") h = Ok true)
  ∧ (∀ h, compile_and_check (of_string "a*") (of_string "b") h = Ok false).
Proof.
  split; [|split; [|repeat split; run_example]].
  - intros n s i p j c Hc Hq. rewrite _match_unfold, Hc, Hq.
    apply lookup_lt_Some in Hq.
    destruct (Nat.eqb_spec j (length p)); [lia|]. by rewrite N.eqb_refl.
  - intros s i p j c Hc Hq.
    rewrite match_at_unfold, Hc, Hq by (apply lookup_lt_Some in Hc; lia).
    apply lookup_lt_Some in Hq.
    destruct (Nat.eqb_spec j (length p)); [lia|]. by rewrite N.eqb_refl.
Qed.

Lemma C1_witness :
  let s := of_string "aab" in
  let p := of_string "ca*b" in
  p !! 1 = Some 97%N ∧ p !! (1 + 1) = Some STAR
  ∧ match_at s 0 p 1
    = match_at s 0 p (1 + 2)
      || (first_match s 0 97%N && match_at s (0 + 1) p 1).
Proof.
  intros s p. split; [reflexivity|]. split; [reflexivity|].
  apply (proj1 (proj2 C1_star_tries_zero_then_one_more) s 0 p 1 97%N);
    reflexivity.
Defined.

(** C2: when the pattern character at [j] is followed by ['+'], a call at
    [(i, j)] answers false unless [first_match] holds, and otherwise
    answers true iff the call at [(i+1, j)] or the call at [(i+1, j+2)]
    does.  So ["a+"] rejects the empty string and accepts ["a"] and
    ["aaa"]. *)
Theorem C2_plus_needs_first_match_then_either :
  (∀ n (s : list N) i (p : list N) j c,
     p !! j = Some c → p !! (j + 1) = Some PLUS →
     _match (S n) s i p j =
     if first_match s i c then
       again ← _match n s (i + 1) p j;
       if again : bool then Ok true else _match n s (i + 1) p (j + 2)
     else Ok false)
  ∧ (∀ (s : list N) i (p : list N) j c,
     p !! j = Some c → p !! (j + 1) = Some PLUS →
     match_at s i p j
     = first_match s i c
       && (match_at s (i + 1) p j || match_at s (i + 1) p (j + 2)))
  ∧ (∀ h, compile_and_check (of_string "a+") [] h = Ok false)
  ∧ (∀ h, compile_and_check (of_string "a+") (of_string "a") h = Ok true)
  ∧ (∀ h, compile_and_check (of_string "a+") (of_string "aaa") h = Ok true).
Proof.
  split; [|split; [|repeat split; run_example]].
  - intros n s i p j c Hc Hq. rewrite _match_unfold, Hc, Hq.
    apply lookup_lt_Some in Hq.
    destruct (Nat.eqb_spec j (length p)); [lia|].
    change (PLUS =? STAR)%N with false. by rewrite N.eqb_refl.
  - intros s i p j c Hc Hq.
    rewrite match_at_unfold, Hc, Hq by (apply lookup_lt_Some in Hc; lia).
    apply lookup_lt_Some in Hq.
    destruct (Nat.eqb_spec j (length p)); [lia|].
    change (PLUS =? STAR)%N with false. by rewrite N.eqb_refl.
Qed.

Lemma C2_witness :
  let s := of_string "aab" in
  let p := of_string "a+b" in
  p !! 0 = Some 97%N ∧ p !! (0 + 1) = Some PLUS
  ∧ match_at s 0 p 0
    = first_match s 0 97%N
      && (match_at s (0 + 1) p 0 || match_at s (0 + 1) p (0 + 2)).
Proof.
  intros s p. split; [reflexivity|]. split; [reflexivity|].
  apply (proj1 (proj2 C2_plus_needs_first_match_then_either) s 0 p 0 97%N);
    reflexivity.
Defined.

(** C3: for a pattern without ['*'] and ['+'], [check_string] answers a
    boolean, and answers true exactly when the input has the length of the
    pattern and agrees with it at every position whose pattern character
    is not ['.'].  In particular ["."] accepts every one-character input
    and rejects the empty input and every two-character input. *)
Theorem C3_no_quantifier_is_wildcard_equality :
  (∀ self (s : list N),
     has_no_quantifier (regex_expr self) →
     ∃ b, check_string self s = Ok b
          ∧ (b = true ↔ wildcard_equal (regex_expr self) s))
  ∧ (∀ h x, compile_and_check (of_string ".") [x] h = Ok true)
  ∧ (∀ h, compile_and_check (of_string ".") [] h = Ok false)
  ∧ (∀ h x y, compile_and_check (of_string ".") [x; y] h = Ok false).
Proof.
  split.
  { intros self s Hq. exists (accepts (regex_expr self) s).
    split; [apply check_string_accepts|]. by apply accepts_no_quantifier. }
  repeat split; intros; rewrite compile_and_check_result;
    change (forallb isascii (of_string ".")) with true;
    change (of_string ".") with [DOT]; cbn match; f_equal;
    rewrite accepts_plain by done; try done;
    unfold char_ok; by rewrite N.eqb_refl, orb_true_r, accepts_nil.
Qed.

Lemma C3_witness :
  let self := mkRegexFSM (of_string "a.c") in
  let s := of_string "abc" in
  has_no_quantifier (regex_expr self)
  ∧ ∃ b, check_string self s = Ok b
         ∧ (b = true ↔ wildcard_equal (regex_expr self) s).
Proof.
  intros self s.
  assert (Hq : has_no_quantifier (regex_expr self)).
  { intros c Hc. cbn in Hc. apply list_elem_of_In in Hc. cbn in Hc.
    destruct Hc as [<-|[<-|[<-|[]]]]; reflexivity. }
  split; [exact Hq|].
  exact (proj1 C3_no_quantifier_is_wildcard_equality self s Hq).
Defined.

(** C4: the scenario of the module's [__main__] block: the pattern
    ["a*4.+hi"] accepts ["aaaaaa4uhi"] and ["4uhi"] and rejects
    ["meow"]. *)
Theorem C4_main_scenario :
  (∀ h, compile_and_check (of_string "a*4.+hi") (of_string "aaaaaa4uhi") h
        = Ok true)
  ∧ (∀ h, compile_and_check (of_string "a*4.+hi") (of_string "4uhi") h
          = Ok true)
  ∧ (∀ h, compile_and_check (of_string "a*4.+hi") (of_string "meow") h
          = Ok false).
Proof. repeat split; run_example. Qed.

(** C5, as the code has it: the constructor raises exactly when some
    character of the pattern is not a 7-bit character (its code point is
    128 or more); every 7-bit character is accepted, printable or not.
    The exception is always the same [AttributeError] with the message
    "Character is not supported", whatever the character; nothing else
    is raised.  In particular ["a$b"] is compiled without error. *)
Theorem C5_constructor_raises_iff_not_7bit :
  (∀ (p : list N) h,
     (__init__ p h).2 =
     if forallb isascii p then Ok (mkRegexFSM p)
     else Raise (AttributeError not_supported))
  ∧ (∀ (p : list N) h,
       (∃ e, (__init__ p h).2 = Raise e) ↔ ∃ c, c ∈ p ∧ (128 ≤ c)%N)
  ∧ (∀ h, (__init__ (of_string "a$b") h).2
          = Ok (mkRegexFSM (of_string "a$b"))).
Proof.
  split; [exact __init___result|]. split; [|intros; apply __init___result].
  intros p h. rewrite __init___result.
  destruct (forallb isascii p) eqn:Hall.
  - split; [by intros [e ?]|]. intros (c & Hc & Hge).
    rewrite forallb_forall in Hall.
    apply list_elem_of_In, Hall in Hc. unfold isascii in Hc.
    apply N.ltb_lt in Hc. lia.
  - split; [intros _|by eexists].
    destruct (forallb_isascii_false p Hall) as (c & Hc & Hasc).
    exists c. split; [done|]. by apply N.ltb_ge.
Qed.

(** C5 as stated fails: ["a$b"] compiles; so does a pattern made of the
    control character U+0007, which is not printable; and two patterns
    with different offending characters raise the very same exception,
    which therefore names neither. *)
Lemma C5_counterexample :
  (__init__ (of_string "a$b") initial_heap).2
  = Ok (mkRegexFSM (of_string "a$b"))
  ∧ (__init__ [7%N] initial_heap).2 = Ok (mkRegexFSM [7%N])
  ∧ (__init__ [233%N] initial_heap).2
    = Raise (AttributeError "Character is not supported")
  ∧ (__init__ [8364%N] initial_heap).2
    = Raise (AttributeError "Character is not supported").
Proof. repeat split; vm_compute; reflexivity. Qed.

(** C6: for a pattern that the constructor accepted and that is well
    formed (every quantifier follows an atomic element of its own), and
    for every input, [check_string] raises nothing and answers a boolean,
    which is true exactly when the whole input is a concatenation of one
    word per pattern element; any other input, a proper prefix match
    included, gets false. *)
Theorem C6_matching_never_raises
    (p : list N) h h' self es (s : list N) :
  __init__ p h = (h', Ok self) →
  elements p = Some es →
  ∃ b, check_string self s = Ok b ∧ (b = true ↔ fully_matches es s).
Proof.
  intros Hinit Hes.
  pose proof (__init___result p h) as Hr. rewrite Hinit in Hr. cbn in Hr.
  destruct (forallb isascii p); [|done]. injection Hr as ->.
  exists (accepts p s). split; [apply check_string_accepts|].
  by apply accepts_elements.
Qed.

Lemma C6_witness :
  let p := of_string "a*b" in
  let r := __init__ p initial_heap in
  r = (r.1, Ok (mkRegexFSM p))
  ∧ elements p = Some [ZeroOrMore (Literal 97%N); Single (Literal 98%N)]
  ∧ ∃ b, check_string (mkRegexFSM p) (of_string "aab") = Ok b
         ∧ (b = true
            ↔ fully_matches
                [ZeroOrMore (Literal 97%N); Single (Literal 98%N)]
                (of_string "aab")).
Proof.
  intros p r.
  assert (Hr : r = (r.1, Ok (mkRegexFSM p))) by reflexivity.
  assert (He : elements p
               = Some [ZeroOrMore (Literal 97%N); Single (Literal 98%N)])
    by reflexivity.
  split; [exact Hr|]. split; [exact He|].
  exact (C6_matching_never_raises p initial_heap r.1 (mkRegexFSM p) _
           (of_string "aab") Hr He).
Defined.

(** C7: the recursion of [_match] terminates from every pair of cursors:
    with any budget of nested calls above
    [(length s - i) + (length p - j)] it returns, and returns the same
    result; from [(0, 0)] a budget above [length s + length p] gives the
    boolean that [check_string] answers. *)
Theorem C7_match_terminates :
  (∀ (s : list N) i (p : list N) j,
     ∃ r, r ≠ OutOfFuel
          ∧ ∀ n, (length s - i) + (length p - j) < n → _match n s i p j = r)
  ∧ (∀ self (s : list N) n,
       length s + length (regex_expr self) < n →
       ∃ b, _match n s 0 (regex_expr self) 0 = Ok b
            ∧ check_string self s = Ok b).
Proof.
  split.
  - intros s i p j. destruct (Nat.le_gt_cases j (length p)) as [Hj|Hj].
    + exists (Ok (match_at s i p j)). split; [done|].
      intros n Hn. by apply _match_eq.
    + exists (Raise IndexError). split; [done|].
      intros [|n] Hn; [lia|]. rewrite _match_unfold.
      destruct (Nat.eqb_spec j (length p)); [lia|].
      by rewrite lookup_ge_None_2 by lia.
  - intros self s n Hn. exists (accepts (regex_expr self) s).
    split; [|apply check_string_accepts].
    apply _match_eq; lia.
Qed.

Lemma C7_witness :
  let self := mkRegexFSM (of_string "a*b") in
  let s := of_string "aaab" in
  length s + length (regex_expr self) < 8
  ∧ ∃ b, _match 8 s 0 (regex_expr self) 0 = Ok b
         ∧ check_string self s = Ok b.
Proof.
  intros self s.
  assert (Hn : length s + length (regex_expr self) < 8) by (cbn; lia).
  split; [exact Hn|].
  exact (proj2 C7_match_terminates self s 8 Hn).
Defined.

(** C8: two successful constructions from the same pattern string, in
    whatever heaps they run, give objects whose [check_string] answers
    the same on every input. *)
Theorem C8_compile_twice_same_verdicts
    (p : list N) h1 h1' h2 h2' f1 f2 :
  __init__ p h1 = (h1', Ok f1) →
  __init__ p h2 = (h2', Ok f2) →
  ∀ s, check_string f1 s = check_string f2 s.
Proof.
  intros H1 H2 s.
  pose proof (__init___result p h1) as Hr1. rewrite H1 in Hr1.
  pose proof (__init___result p h2) as Hr2. rewrite H2 in Hr2.
  cbn in Hr1, Hr2. destruct (forallb isascii p); [|done].
  injection Hr1 as ->. by injection Hr2 as ->.
Qed.

Lemma C8_witness :
  let p := of_string "a+b" in
  let r1 := __init__ p initial_heap in
  let r2 := __init__ p r1.1 in
  r1 = (r1.1, Ok (mkRegexFSM p)) ∧ r2 = (r2.1, Ok (mkRegexFSM p))
  ∧ ∀ s, check_string (mkRegexFSM p) s = check_string (mkRegexFSM p) s.
Proof.
  intros p r1 r2.
  assert (H1 : r1 = (r1.1, Ok (mkRegexFSM p))) by reflexivity.
  assert (H2 : r2 = (r2.1, Ok (mkRegexFSM p))) by reflexivity.
  split; [exact H1|]. split; [exact H2|].
  exact (C8_compile_twice_same_verdicts p initial_heap r1.1 r1.1 r2.1
           (mkRegexFSM p) (mkRegexFSM p) H1 H2).
Defined.

(** C9 fails on the code: constructing [RegexFSM("a")] and then
    [RegexFSM("b")] changes the [next_states] list of the class-level
    start state, which the first object reaches through [curr_state],
    from two entries to four; the states of the second pattern are
    appended to it. *)
Theorem C9_second_compile_mutates_shared_state :
  ∃ h1 f1 h2 f2,
    __init__ (of_string "a") initial_heap = (h1, Ok f1)
    ∧ __init__ (of_string "b") h1 = (h2, Ok f2)
    ∧ next_states <$> initial_heap !! curr_state = Some []
    ∧ next_states <$> h1 !! curr_state = Some [1; 2]
    ∧ next_states <$> h2 !! curr_state = Some [1; 2; 3; 4]
    ∧ class_of <$> h2 !! 3 = Some (AsciiState 98)
    ∧ class_of <$> h2 !! 4 = Some TerminationState.
Proof. do 4 eexists. repeat split; vm_compute; reflexivity. Qed.

(** C10: [check_string] answers a boolean for every pattern string,
    also one that starts with a quantifier character or has two in a row.
    Where the matcher arrives at a ['*'] or ['+'] that is not itself
    followed by a quantifier character, it treats it as a literal: the
    input character must be that very character, and matching goes on
    behind both.  So the pattern ["*"] accepts the input ["*"] and no
    other, and ["a**"] reads as zero or more ['a'] and then a literal
    ['*']. *)
Theorem C10_stray_quantifier_is_literal :
  (∀ self (s : list N), ∃ b, check_string self s = Ok b)
  ∧ (∀ (s : list N) i (p : list N) j q,
       p !! j = Some q → in_star_plus q = true →
       (∀ q', p !! (j + 1) = Some q' → in_star_plus q' = false) →
       match_at s i p j
       = match s !! i with
         | Some x => (q =? x)%N && match_at s (i + 1) p (j + 1)
         | None => false
         end)
  ∧ (∀ q (p s : list N),
       in_star_plus q = true → starts_with_quant p = false →
       accepts (q :: p) s
       = match s with
         | x :: s' => (q =? x)%N && accepts p s'
         | [] => false
         end)
  ∧ (∀ h (s : list N),
       compile_and_check (of_string "*") s h
       = Ok (bool_decide (s = of_string "*")))
  ∧ (∀ h, compile_and_check (of_string "a**") (of_string "aa*") h = Ok true)
  ∧ (∀ h, compile_and_check (of_string "a**") (of_string "aa") h = Ok false).
Proof.
  assert (Hlit : ∀ q x, in_star_plus q = true → char_ok q x = (q =? x)%N).
  { intros q x Hq. unfold char_ok, in_star_plus in *.
    apply orb_true_iff in Hq as [->%N.eqb_eq| ->%N.eqb_eq];
      apply orb_false_r. }
  split; [|split; [|split; [|split; [|split; run_example]]]].
  - intros self s. eexists. apply check_string_accepts.
  - intros s i p j q Hq Hquant Hnext.
    rewrite match_at_unfold, Hq by (apply lookup_lt_Some in Hq; lia).
    pose proof (lookup_lt_Some _ _ _ Hq).
    destruct (Nat.eqb_spec j (length p)); [lia|].
    assert (Hfm : first_match s i q && match_at s (i + 1) p (j + 1)
                  = match s !! i with
                    | Some x => (q =? x)%N && match_at s (i + 1) p (j + 1)
                    | None => false
                    end).
    { unfold first_match. destruct (s !! i) as [x|]; [|done].
      change ((q =? x)%N || (q =? DOT)%N) with (char_ok q x).
      by rewrite Hlit. }
    destruct (p !! (j + 1)) as [q'|]; [|done].
    specialize (Hnext q' eq_refl). unfold in_star_plus in Hnext.
    by apply orb_false_iff in Hnext as [-> ->].
  - intros q p s Hquant Hp. rewrite accepts_plain by done.
    destruct s as [|x s']; [done|]. by rewrite Hlit.
  - intros h s. rewrite compile_and_check_result.
    change (forallb isascii (of_string "*")) with true.
    change (of_string "*") with [STAR]. cbn match. f_equal.
    rewrite accepts_plain by done.
    destruct s as [|x s']; [done|].
    rewrite accepts_nil, Hlit by done.
    destruct (N.eqb_spec STAR x) as [<-|Hne]; cbn.
    + destruct s'; [by rewrite !bool_decide_eq_true_2|].
      by rewrite !bool_decide_eq_false_2.
    + symmetry. apply bool_decide_eq_false_2. congruence.
Qed.

Lemma C10_witness :
  let s := of_string "aa*b" in
  let p := of_string "a**b" in
  p !! 2 = Some STAR ∧ in_star_plus STAR = true
  ∧ (∀ q', p !! (2 + 1) = Some q' → in_star_plus q' = false)
  ∧ match_at s 2 p 2
    = match s !! 2 with
      | Some x => (STAR =? x)%N && match_at s (2 + 1) p (2 + 1)
      | None => false
      end.
Proof.
  intros s p.
  assert (Hnext : ∀ q', p !! (2 + 1) = Some q' → in_star_plus q' = false).
  { intros q' Hq'. injection Hq' as <-. reflexivity. }
  split; [reflexivity|]. split; [reflexivity|]. split; [exact Hnext|].
  exact (proj1 (proj2 C10_stray_quantifier_is_literal) s 2 p 2 STAR
           eq_refl eq_refl Hnext).
Defined.

(** * Further properties of the matcher *)

(** X1: a call of [_match] with both cursors in range looks only at
    what lies ahead of them: it answers what [check_string] answers for
    the rest of the pattern on the rest of the input. *)
Theorem X1_match_depends_on_suffixes (s p : list N) i j n :
  i ≤ length s → j ≤ length p →
  (length s - i) + (length p - j) < n →
  _match n s i p j = check_string (mkRegexFSM (drop j p)) (drop i s).
Proof.
  intros Hi Hj Hn. rewrite check_string_accepts, _match_eq by done.
  f_equal. by apply match_at_drop.
Qed.

Lemma X1_witness :
  let s := of_string "xaab" in
  let p := of_string "ya*b" in
  1 ≤ length s ∧ 1 ≤ length p ∧ (length s - 1) + (length p - 1) < 7
  ∧ _match 7 s 1 p 1 = check_string (mkRegexFSM (drop 1 p)) (drop 1 s).
Proof.
  intros s p.
  assert (Hi : 1 ≤ length s) by (cbn; lia).
  assert (Hj : 1 ≤ length p) by (cbn; lia).
  assert (Hn : (length s - 1) + (length p - 1) < 7) by (cbn; lia).
  split; [exact Hi|]. split; [exact Hj|]. split; [exact Hn|].
  exact (X1_match_depends_on_suffixes s p 1 1 7 Hi Hj Hn).
Defined.

(** X2: called with a pattern cursor beyond the end of the pattern,
    [_match] raises [IndexError] at [p[j]], whatever the input and the
    input cursor. *)
Theorem X2_pattern_cursor_out_of_range (s p : list N) i j n :
  length p < j → _match (S n) s i p j = Raise IndexError.
Proof.
  intros Hj. rewrite _match_unfold.
  destruct (Nat.eqb_spec j (length p)); [lia|].
  by rewrite lookup_ge_None_2 by lia.
Qed.

Lemma X2_witness :
  length (of_string "ab") < 3
  ∧ _match 1 (of_string "ab") 0 (of_string "ab") 3 = Raise IndexError.
Proof.
  assert (Hj : length (of_string "ab") < 3) by (cbn; lia).
  split; [exact Hj|].
  exact (X2_pattern_cursor_out_of_range (of_string "ab") (of_string "ab")
           0 3 0 Hj).
Defined.

(** X3: called with an input cursor beyond the end of the input (and
    the pattern cursor in range), [_match] never reads the input and
    answers false. *)
Theorem X3_input_cursor_out_of_range (s p : list N) i j n :
  length s < i → j ≤ length p → length p - j < n →
  _match n s i p j = Ok false.
Proof.
  intros Hi Hj Hn. rewrite _match_eq by lia. f_equal.
  clear n Hn. remember (length p - j) as m eqn:Hm.
  revert j Hj Hm. induction (lt_wf m) as [m _ IH]. intros j Hj ->.
  rewrite match_at_unfold by done.
  destruct (Nat.eqb_spec j (length p)) as [_|Hne].
  { apply Nat.eqb_neq. lia. }
  destruct (p !! j) as [c|]; [|done].
  assert (Hfm : first_match s i c = false).
  { unfold first_match. by rewrite lookup_ge_None_2 by lia. }
  rewrite Hfm. cbn.
  destruct (p !! (j + 1)) as [q|] eqn:Hq; [|done].
  apply lookup_lt_Some in Hq.
  destruct (q =? STAR)%N; [|by destruct (q =? PLUS)%N].
  rewrite orb_false_r.
  apply (IH (length p - (j + 2))); lia.
Qed.

Lemma X3_witness :
  let s := of_string "a" in
  let p := of_string "a*" in
  length s < 2 ∧ 0 ≤ length p ∧ length p - 0 < 3
  ∧ _match 3 s 2 p 0 = Ok false.
Proof.
  intros s p.
  assert (Hi : length s < 2) by (cbn; lia).
  assert (Hj : 0 ≤ length p) by (cbn; lia).
  assert (Hn : length p - 0 < 3) by (cbn; lia).
  split; [exact Hi|]. split; [exact Hj|]. split; [exact Hn|].
  exact (X3_input_cursor_out_of_range s p 2 0 3 Hi Hj Hn).
Defined.

(** X4: the empty input is accepted by exactly the patterns made of
    starred characters only (the empty pattern among them). *)
Theorem X4_empty_input (p : list N) :
  check_string (mkRegexFSM p) [] = Ok (all_starred p).
Proof.
  rewrite check_string_accepts. f_equal. cbn [regex_expr].
  remember (length p) as n eqn:Hn. revert p Hn.
  induction (lt_wf n) as [n _ IH]. intros p ->.
  destruct p as [|c [|q p]].
  - by rewrite accepts_nil.
  - by rewrite accepts_plain.
  - cbn [all_starred].
    destruct (N.eqb_spec q STAR) as [->|Hs];
      [|destruct (N.eqb_spec q PLUS) as [->|Hp]].
    + rewrite accepts_star, orb_false_r. cbn [andb].
      apply (IH (length p)); [cbn; lia|done].
    + by rewrite accepts_plus.
    + rewrite accepts_plain; [done|].
      cbn. unfold in_star_plus. apply orb_false_iff.
      by rewrite !N.eqb_neq.
Qed.

(** X5: matching composes along the pattern.  When the second pattern
    does not start with a quantifier character, the concatenation of two
    patterns accepts exactly the inputs that split into a part the first
    accepts and a part the second accepts. *)
Theorem X5_concatenation (p1 p2 s : list N) :
  starts_with_quant p2 = false →
  check_string (mkRegexFSM (p1 ++ p2)) s = Ok true
  ↔ ∃ s1 s2, s = s1 ++ s2
             ∧ check_string (mkRegexFSM p1) s1 = Ok true
             ∧ check_string (mkRegexFSM p2) s2 = Ok true.
Proof.
  intros Hp2.
  assert (Hacc : ∀ p s, check_string (mkRegexFSM p) s = Ok true
                        ↔ accepts p s = true).
  { intros p s'. rewrite check_string_accepts. cbn.
    split; [by intros [= ->]|by intros ->]. }
  rewrite Hacc. setoid_rewrite Hacc. clear Hacc.
  remember (length p1) as n eqn:Hn. revert p1 s Hn.
  induction (lt_wf n) as [n _ IH]. intros p1 s ->.
  destruct p1 as [|c [|q p1]].
  - cbn [app]. split.
    + intros Hs. exists [], s. by rewrite accepts_nil.
    + intros (s1 & s2 & -> & Hs1 & Hs2).
      rewrite accepts_nil in Hs1. by apply bool_decide_eq_true in Hs1 as ->.
  - cbn [app]. rewrite accepts_single_spec by done. split.
    + intros (w & s' & -> & Hw & Hs'). exists w, s'.
      split; [done|]. split; [|done].
      apply accepts_single_spec; [done|]. exists w, [].
      by rewrite app_nil_r, accepts_nil.
    + intros (s1 & s2 & -> & Hs1 & Hs2).
      apply accepts_single_spec in Hs1 as (w & s' & -> & Hw & Hs'); [|done].
      rewrite accepts_nil in Hs'. apply bool_decide_eq_true in Hs' as ->.
      rewrite app_nil_r. by exists w, s2.
  - cbn [app].
    destruct (N.eqb_spec q STAR) as [->|Hs];
      [|destruct (N.eqb_spec q PLUS) as [->|Hp]].
    + rewrite accepts_star_spec. split.
      * intros (w & s' & -> & Hw & Hs').
        apply (IH (length p1)) in Hs' as (s1 & s2 & -> & Hs1 & Hs2);
          [|cbn; lia|done].
        exists (w ++ s1), s2. rewrite app_assoc. split; [done|].
        split; [|done]. apply accepts_star_spec. by exists w, s1.
      * intros (s1 & s2 & -> & Hs1 & Hs2).
        apply accepts_star_spec in Hs1 as (w & s' & -> & Hw & Hs').
        exists w, (s' ++ s2). rewrite app_assoc. split; [done|].
        split; [done|]. apply (IH (length p1)); [cbn; lia|done|].
        by exists s', s2.
    + rewrite accepts_plus_spec. split.
      * intros (w & s' & -> & Hne & Hw & Hs').
        apply (IH (length p1)) in Hs' as (s1 & s2 & -> & Hs1 & Hs2);
          [|cbn; lia|done].
        exists (w ++ s1), s2. rewrite app_assoc. split; [done|].
        split; [|done]. apply accepts_plus_spec. by exists w, s1.
      * intros (s1 & s2 & -> & Hs1 & Hs2).
        apply accepts_plus_spec in Hs1 as (w & s' & -> & Hne & Hw & Hs').
        exists w, (s' ++ s2). rewrite app_assoc. split; [done|].
        split; [done|]. split; [done|].
        apply (IH (length p1)); [cbn; lia|done|]. by exists s', s2.
    + assert (Hq : ∀ r, starts_with_quant (q :: r) = false).
      { intros r. cbn. unfold in_star_plus. apply orb_false_iff.
        by rewrite !N.eqb_neq. }
      rewrite accepts_single_spec by apply Hq. split.
      * intros (w & s' & -> & Hw & Hs').
        apply (IH (length (q :: p1)) ltac:(cbn; lia) (q :: p1)) in Hs'
          as (s1 & s2 & -> & Hs1 & Hs2); [|done].
        exists (w ++ s1), s2. rewrite app_assoc. split; [done|].
        split; [|done]. apply accepts_single_spec; [apply Hq|].
        by exists w, s1.
      * intros (s1 & s2 & -> & Hs1 & Hs2).
        apply accepts_single_spec in Hs1 as (w & s' & -> & Hw & Hs');
          [|apply Hq].
        exists w, (s' ++ s2). rewrite app_assoc. split; [done|].
        split; [done|].
        apply (IH (length (q :: p1)) ltac:(cbn; lia) (q :: p1)); [done|].
        by exists s', s2.
Qed.

Lemma X5_witness :
  let p1 := of_string "a*" in
  let p2 := of_string "b+" in
  let s := of_string "aabb" in
  starts_with_quant p2 = false
  ∧ ∃ s1 s2, s = s1 ++ s2
             ∧ check_string (mkRegexFSM p1) s1 = Ok true
             ∧ check_string (mkRegexFSM p2) s2 = Ok true.
Proof.
  intros p1 p2 s.
  assert (Hp2 : starts_with_quant p2 = false) by reflexivity.
  split; [exact Hp2|].
  apply (proj1 (X5_concatenation p1 p2 s Hp2)). reflexivity.
Defined.

(** X6: one-or-more is one occurrence followed by zero-or-more: for a
    character that is not a quantifier character, ["c+"] in front of a
    pattern and ["cc*"] in front of it give the same verdict on every
    input. *)
Theorem X6_plus_is_one_then_star c (p s : list N) :
  in_star_plus c = false →
  check_string (mkRegexFSM (c :: PLUS :: p)) s
  = check_string (mkRegexFSM (c :: c :: STAR :: p)) s.
Proof.
  intros Hc. rewrite !check_string_accepts. f_equal. cbn [regex_expr].
  rewrite (accepts_plain c (c :: STAR :: p)) by done.
  rewrite accepts_plus. destruct s as [|x s]; [done|]. f_equal.
  revert x. induction s as [|y s IH]; intros x.
  - rewrite accepts_plus, accepts_star. by rewrite orb_false_r.
  - rewrite accepts_plus, (accepts_star c p (y :: s)), IH.
    rewrite (accepts_star c p s).
    destruct (char_ok c y), (accepts p (y :: s)), (accepts p s); try done.
    all: cbn; by rewrite ?orb_true_r, ?orb_false_r.
Qed.

Lemma X6_witness :
  in_star_plus 97%N = false
  ∧ check_string (mkRegexFSM (97%N :: PLUS :: of_string "b")) (of_string "aab")
    = check_string (mkRegexFSM (97%N :: 97%N :: STAR :: of_string "b"))
        (of_string "aab").
Proof.
  assert (Hc : in_star_plus 97%N = false) by reflexivity.
  split; [exact Hc|].
  exact (X6_plus_is_one_then_star 97%N (of_string "b") (of_string "aab") Hc).
Defined.

(** X7: the recursion is as deep as the input is long: on [k] copies
    of ['a'] the pattern ["a*"] needs [k + 2] nested calls of [_match];
    with fewer the run does not finish, with as many or more it answers
    true. *)
Theorem X7_nesting_depth_of_star k n :
  _match n (replicate k 97%N) 0 [97%N; STAR] 0
  = if n <=? S k then OutOfFuel else Ok true.
Proof.
  destruct (Nat.leb_spec n (S k)) as [Hle|Hgt].
  - apply _match_depth_needed. lia.
  - assert (Hrun : ∀ m i, i ≤ k → k + 2 ≤ m + i →
      _match m (replicate k 97%N) i [97%N; STAR] 0 = Ok true).
    { clear. induction m as [|m IH]; intros i Hi Hm; [lia|].
      rewrite _match_unfold. cbn [length Nat.eqb lookup list_lookup Nat.add].
      rewrite N.eqb_refl. destruct m as [|m]; [lia|].
      rewrite (_match_unfold m _ i _ 2).
      cbn [length Nat.eqb Nat.add mbind result_bind].
      rewrite length_replicate.
      destruct (Nat.eqb_spec i k) as [->|Hne]; [done|].
      assert (Hfm : first_match (replicate k 97%N) i 97%N = true).
      { apply first_match_true. exists 97%N. split; [|by left].
        apply lookup_replicate_2. lia. }
      rewrite Hfm, IH by lia. done. }
    apply Hrun; lia.
Qed.

(** X8: [".*"] in front of a pattern makes it match at any distance
    from the start: the input is accepted exactly when the pattern
    accepts what is left of it after dropping some characters. *)
Theorem X8_dot_star_prefix (p s : list N) :
  check_string (mkRegexFSM (DOT :: STAR :: p)) s = Ok true
  ↔ ∃ k, check_string (mkRegexFSM p) (drop k s) = Ok true.
Proof.
  assert (Hacc : ∀ p s, check_string (mkRegexFSM p) s = Ok true
                        ↔ accepts p s = true).
  { intros p' s'. rewrite check_string_accepts. cbn.
    split; [by intros [= ->]|by intros ->]. }
  rewrite Hacc. setoid_rewrite Hacc. rewrite accepts_star_spec. split.
  - intros (w & s' & -> & _ & Hs'). exists (length w).
    by rewrite drop_app_length.
  - intros [k Hk]. exists (take k s), (drop k s).
    rewrite take_drop. split; [done|]. split; [|done].
    apply Forall_forall. intros x _. reflexivity.
Qed.

(** X9: every pattern string, well formed or not, has the reading
    [reading p] as a sequence of elements, and [check_string] answers
    true exactly on the inputs that are a concatenation of one word per
    element of that reading. *)
Theorem X9_matcher_decides_the_reading (p s : list N) :
  check_string (mkRegexFSM p) s = Ok true ↔ fully_matches (reading p) s.
Proof.
  rewrite check_string_accepts. cbn [regex_expr].
  assert (accepts p s = true ↔ fully_matches (reading p) s) as <-.
  2: { split; [by intros [= ->]|by intros ->]. }
  remember (length p) as n eqn:Hn. revert p s Hn.
  induction (lt_wf n) as [n _ IH]. intros p s ->.
  destruct p as [|c [|q p]].
  - rewrite accepts_nil, fully_matches_nil. apply bool_decide_eq_true.
  - cbn [reading]. rewrite accepts_single_spec, fully_matches_cons by done.
    setoid_rewrite accepts_nil. setoid_rewrite bool_decide_eq_true.
    by setoid_rewrite fully_matches_nil.
  - cbn [reading].
    destruct (N.eqb_spec q STAR) as [->|Hs];
      [|destruct (N.eqb_spec q PLUS) as [->|Hp]].
    + rewrite accepts_star_spec, fully_matches_cons.
      by setoid_rewrite (IH (length p) ltac:(cbn; lia) p _ eq_refl).
    + rewrite accepts_plus_spec, fully_matches_cons.
      setoid_rewrite (IH (length p) ltac:(cbn; lia) p _ eq_refl).
      cbn. split; intros (w & s' & ?); exists w, s'; tauto.
    + rewrite accepts_single_spec, fully_matches_cons.
      * by setoid_rewrite
          (IH (length (q :: p)) ltac:(cbn; lia) (q :: p) _ eq_refl).
      * cbn. unfold in_star_plus.
        apply orb_false_iff. by rewrite !N.eqb_neq.
Qed.

(** * Further properties of the constructor *)

Section ConstructorHeap.

Implicit Types (p chars : str) (h : list State) (c : N) (st : State).

Lemma __init_next_state_state_for c prev tmp h :
  isascii c = true →
  __init_next_state c prev tmp h = (h ++ [state_for c tmp], Ok (length h)).
Proof.
  intros Hc. unfold __init_next_state, state_for, new. rewrite Hc.
  by destruct (c =? DOT)%N, (c =? STAR)%N, (c =? PLUS)%N.
Qed.

Lemma __init__loop_app chars1 chars2 prev tmp h :
  __init__loop (chars1 ++ chars2) prev tmp h =
  match __init__loop chars1 prev tmp h with
  | (h1, Ok tmp1) => __init__loop chars2 prev tmp1 h1
  | other => other
  end.
Proof.
  revert tmp h. induction chars1 as [|c chars1 IH]; intros tmp h; [done|].
  cbn. destruct (__init_next_state c prev tmp h) as [h1 [a|e|]]; [|done..].
  apply IH.
Qed.

(** The objects the loop allocates, one per character. *)
Lemma __init__loop_objects chars prev tmp h h' a :
  __init__loop chars prev tmp h = (h', Ok a) →
  prev < length h →
  ∀ k c, chars !! k = Some c →
    h' !! (length h + k)
    = Some (state_for c (match k with O => tmp | S k' => length h + k' end)).
Proof.
  revert tmp h.
  induction chars as [|c0 chars IH]; intros tmp h Hrun Hprev k c Hk;
    [done|].
  cbn in Hrun. destruct (isascii c0) eqn:Hc0.
  2: { by rewrite __init_next_state_not_ascii in Hrun. }
  rewrite __init_next_state_state_for in Hrun by done.
  set (h1 := next_states_append prev (length h) (h ++ [state_for c0 tmp]))
    in Hrun.
  assert (Hlen1 : length h1 = S (length h)).
  { unfold h1, next_states_append. rewrite length_alter, length_app.
    cbn. lia. }
  destruct (lookup_lt_is_Some_2 h1 prev ltac:(lia)) as [st1 Hst1].
  destruct k as [|k].
  - injection Hk as <-. rewrite Nat.add_0_r.
    destruct (__init__loop_heap _ _ _ _ _ _ _ Hrun Hst1) as (_ & _ & Hframe).
    rewrite Hframe by lia. unfold h1, next_states_append.
    rewrite list_lookup_alter_ne by lia. by rewrite list_lookup_middle.
  - cbn in Hk.
    pose proof (IH _ _ Hrun ltac:(lia) k c Hk) as Hobj.
    rewrite Hlen1 in Hobj.
    replace (length h + S k) with (S (length h) + k) by lia.
    rewrite Hobj. do 2 f_equal. destruct k; lia.
Qed.

Lemma __init___objects
    (p : list N) (h h' : list State) self st :
  __init__ p h = (h', Ok self) →
  h !! curr_state = Some st →
  (∀ k c, p !! k = Some c →
     h' !! (length h + k) = Some (state_for c (tmp_at (length h) k)))
  ∧ h' !! (length h + length p) = Some TerminationState__init__.
Proof.
  unfold __init__, new. intros Hrun Hst.
  destruct (__init__loop p curr_state curr_state h) as [h1 [a|e|]] eqn:Hloop;
    try done.
  injection Hrun as <- <-.
  pose proof (lookup_lt_Some _ _ _ Hst) as Hlt.
  destruct (__init__loop_heap _ _ _ _ _ _ _ Hloop Hst) as (Hlen & _ & _).
  unfold next_states_append, curr_state in *. split.
  - intros k c Hk. pose proof (lookup_lt_Some _ _ _ Hk) as Hklt.
    rewrite list_lookup_alter_ne by lia.
    rewrite lookup_app_l by lia.
    by rewrite (__init__loop_objects _ _ _ _ _ _ Hloop Hlt k c Hk).
  - rewrite list_lookup_alter_ne by lia.
    rewrite <- Hlen. by rewrite list_lookup_middle.
Qed.

End ConstructorHeap.

(** X10: what a successful construction does to the heap.  It
    allocates [length p + 1] objects and appends their addresses, in
    order, to the [next_states] of the object at [curr_state]; every
    other object that existed before is left as it was. *)
Theorem X10_constructor_heap_effect
    (p : list N) (h h' : list State) self st :
  __init__ p h = (h', Ok self) →
  h !! curr_state = Some st →
  length h' = length h + S (length p)
  ∧ h' !! curr_state
    = Some (mkState (class_of st)
              (next_states st ++ seq (length h) (S (length p))))
  ∧ ∀ k, k < length h → k ≠ curr_state → h' !! k = h !! k.
Proof. apply __init___heap. Qed.

Lemma X10_witness :
  let p := of_string "a*b" in
  let r := __init__ p initial_heap in
  r = (r.1, Ok (mkRegexFSM p))
  ∧ initial_heap !! curr_state = Some StartState__init__
  ∧ length r.1 = length initial_heap + S (length p)
  ∧ r.1 !! curr_state
    = Some (mkState StartState ([] ++ seq (length initial_heap) (S (length p))))
  ∧ ∀ k, k < length initial_heap → k ≠ curr_state →
         r.1 !! k = initial_heap !! k.
Proof.
  intros p r.
  assert (Hr : r = (r.1, Ok (mkRegexFSM p))) by reflexivity.
  assert (Hst : initial_heap !! curr_state = Some StartState__init__)
    by reflexivity.
  split; [exact Hr|]. split; [exact Hst|].
  exact (X10_constructor_heap_effect p initial_heap r.1 (mkRegexFSM p)
           StartState__init__ Hr Hst).
Defined.

(** X11: the objects a successful construction allocates.  The object
    for position [k] of the pattern is a [DotState] for ['.'], a
    [StarState] or [PlusState] for ['*'] or ['+'], an [AsciiState] with
    that character otherwise; a quantifier state refers to the object
    built for position [k - 1], and at position [0] to the start state;
    the last object is a [TerminationState]. *)
Theorem X11_constructor_objects
    (p : list N) (h h' : list State) self st :
  __init__ p h = (h', Ok self) →
  h !! curr_state = Some st →
  (∀ k c, p !! k = Some c →
     h' !! (length h + k) = Some (state_for c (tmp_at (length h) k)))
  ∧ h' !! (length h + length p) = Some TerminationState__init__.
Proof. apply __init___objects. Qed.

Lemma X11_witness :
  let p := of_string "a*" in
  let r := __init__ p initial_heap in
  r = (r.1, Ok (mkRegexFSM p))
  ∧ initial_heap !! curr_state = Some StartState__init__
  ∧ r.1 !! 1 = Some (mkState (AsciiState 97) [])
  ∧ r.1 !! 2 = Some (mkState (StarState 1) [1])
  ∧ r.1 !! 3 = Some (mkState TerminationState []).
Proof.
  intros p r.
  assert (Hr : r = (r.1, Ok (mkRegexFSM p))) by reflexivity.
  assert (Hst : initial_heap !! curr_state = Some StartState__init__)
    by reflexivity.
  destruct (X11_constructor_objects p initial_heap r.1 (mkRegexFSM p)
              StartState__init__ Hr Hst) as [Hobj Hterm].
  split; [exact Hr|]. split; [exact Hst|].
  split; [exact (Hobj 0 97%N eq_refl)|].
  split; [exact (Hobj 1 STAR eq_refl)|exact Hterm].
Defined.

(** X12: a construction that fails has already changed the heap.  When
    the first character that is not 7-bit stands at position [k], the
    constructor raises after allocating [k] objects and appending their
    addresses to the [next_states] of the object at [curr_state]. *)
Theorem X12_failed_constructor_leaves_objects
    (good rest : list N) c (h : list State) st :
  forallb isascii good = true →
  isascii c = false →
  h !! curr_state = Some st →
  ∃ h', __init__ (good ++ c :: rest) h
        = (h', Raise (AttributeError not_supported))
        ∧ length h' = length h + length good
        ∧ h' !! curr_state
          = Some (mkState (class_of st)
                    (next_states st ++ seq (length h) (length good))).
Proof.
  intros Hgood Hc Hst.
  destruct (__init__loop_ok good curr_state curr_state h Hgood)
    as (h1 & a & Hloop).
  exists h1. unfold __init__. rewrite __init__loop_app, Hloop. cbn.
  rewrite __init_next_state_not_ascii by done.
  destruct (__init__loop_heap _ _ _ _ _ _ _ Hloop Hst) as (Hlen & Hst1 & _).
  done.
Qed.

Lemma X12_witness :
  let good := of_string "ab" in
  forallb isascii good = true ∧ isascii 233%N = false
  ∧ initial_heap !! curr_state = Some StartState__init__
  ∧ ∃ h', __init__ (good ++ 233%N :: of_string "c") initial_heap
          = (h', Raise (AttributeError not_supported))
          ∧ length h' = length initial_heap + length good
          ∧ h' !! curr_state
            = Some (mkState StartState
                      ([] ++ seq (length initial_heap) (length good))).
Proof.
  intros good.
  assert (Hgood : forallb isascii good = true) by reflexivity.
  assert (Hc : isascii 233%N = false) by reflexivity.
  assert (Hst : initial_heap !! curr_state = Some StartState__init__)
    by reflexivity.
  split; [exact Hgood|]. split; [exact Hc|]. split; [exact Hst|].
  exact (X12_failed_constructor_leaves_objects good (of_string "c") 233%N
           initial_heap StartState__init__ Hgood Hc Hst).
Defined.

(** * Properties of the state objects and their methods *)

Section StateMethods.

Implicit Types (p : str) (h : list State) (c ch : N) (st : State)
  (a cs k fuel : nat).

Lemma state_ok_mono h h' a st :
  length h ≤ length h' → state_ok h a st → state_ok h' a st.
Proof.
  unfold state_ok. intros Hlen. destruct (class_of st); try done.
  intros Hns. eapply Forall_impl; [exact Hns|]. intros b Hb. cbn in Hb. lia.
Qed.

(** Allocating a state that is not a start state and appending it to
    the start state keeps the heap well formed. *)
Lemma heap_ok_step h st :
  heap_ok h →
  class_of st ≠ StartState →
  state_ok h (length h) st →
  heap_ok (next_states_append curr_state (length h) (h ++ [st])).
Proof.
  intros [[ns Hstart] Hall] Hcls Hst.
  pose proof (lookup_lt_Some _ _ _ Hstart) as Hlt.
  unfold next_states_append, curr_state in *.
  assert (Hlen : length (alter (λ st0, mkState (class_of st0)
              (next_states st0 ++ [length h])) 0 (h ++ [st]))
            = S (length h)).
  { rewrite length_alter, length_app. cbn. lia. }
  split.
  - exists (ns ++ [length h]).
    rewrite list_lookup_alter_eq, lookup_app_l, Hstart by done. done.
  - intros a st' Ha. destruct (decide (a = 0)) as [->|Hne].
    + rewrite list_lookup_alter_eq, lookup_app_l, Hstart in Ha by done.
      injection Ha as <-. unfold state_ok. cbn.
      rewrite Hlen. apply Forall_app. split.
      * pose proof (Hall 0 _ Hstart) as H0. unfold state_ok in H0. cbn in H0.
        eapply Forall_impl; [exact H0|]. intros b Hb. cbn in Hb. lia.
      * constructor; [lia|constructor].
    + rewrite list_lookup_alter_ne in Ha by done.
      destruct (decide (a < length h)) as [Ha'|Ha'].
      * rewrite lookup_app_l in Ha by done.
        eapply state_ok_mono; [|by apply Hall]. lia.
      * pose proof (lookup_lt_Some _ _ _ Ha) as Hb.
        rewrite length_app in Hb. cbn in Hb.
        assert (a = length h) as -> by lia.
        rewrite list_lookup_middle in Ha by done. injection Ha as <-.
        unfold state_ok in *. destruct (class_of st); try done.
Qed.

Lemma state_for_ok h c tmp :
  tmp < length h →
  class_of (state_for c tmp) ≠ StartState
  ∧ state_ok h (length h) (state_for c tmp).
Proof.
  intros Htmp. unfold state_for, state_ok.
  by destruct (c =? DOT)%N, (c =? STAR)%N, (c =? PLUS)%N.
Qed.

Lemma heap_ok_nonempty h : heap_ok h → 0 < length h.
Proof. intros [[ns Hstart] _]. by apply lookup_lt_Some in Hstart. Qed.

Lemma __init__loop_heap_ok chars tmp h h' (r : result nat) :
  heap_ok h → tmp < length h →
  __init__loop chars curr_state tmp h = (h', r) →
  heap_ok h'.
Proof.
  revert tmp h. induction chars as [|c chars IH]; intros tmp h Hok Htmp Hrun.
  - cbn in Hrun. by injection Hrun as <- _.
  - cbn in Hrun. destruct (isascii c) eqn:Hc.
    + rewrite __init_next_state_state_for in Hrun by done.
      eapply IH in Hrun; [done| |].
      * destruct (state_for_ok h c tmp Htmp). by apply heap_ok_step.
      * unfold next_states_append. rewrite length_alter, length_app.
        cbn. lia.
    + rewrite __init_next_state_not_ascii in Hrun by done.
      by injection Hrun as <- _.
Qed.

Lemma __init___heap_ok p h h' (r : result RegexFSM) :
  heap_ok h → __init__ p h = (h', r) → heap_ok h'.
Proof.
  intros Hok. unfold __init__, new.
  destruct (__init__loop p curr_state curr_state h) as [h1 r1] eqn:Hloop.
  apply __init__loop_heap_ok in Hloop; [|done|by apply heap_ok_nonempty].
  destruct r1 as [a|e|]; intros [= <- _]; [|done..].
  by apply heap_ok_step.
Qed.

Lemma heap_ok_initial : heap_ok initial_heap.
Proof.
  split; [by exists []|].
  intros [|a] st Ha; [|done]. injection Ha as <-. by constructor.
Qed.

(** ** [check_self] *)

Lemma any_check_self_one (check : nat → option bool) cs :
  any_check_self check [cs] = check cs.
Proof. cbn. by destruct (check cs) as [[]|]. Qed.

Lemma check_self_S fuel h a ch :
  check_self (S fuel) h a ch =
  st ← h !! a;
  match class_of st with
  | StartState => Some false
  | TerminationState => Some false
  | DotState => Some true
  | AsciiState curr_sym => Some (ch =? curr_sym)%N
  | StarState _ =>
      any_check_self (λ state, check_self fuel h state ch) (next_states st)
  | PlusState checking_state => check_self fuel h checking_state ch
  end.
Proof. reflexivity. Qed.

Lemma token_accepts_unfold p k ch :
  token_accepts p k ch =
  match p !! k with
  | None => false
  | Some c =>
      if (c =? DOT)%N then true
      else if in_star_plus c then
        match k with
        | O => false
        | S k' => token_accepts p k' ch
        end
      else (ch =? c)%N
  end.
Proof. by destruct k. Qed.

Lemma check_self_start fuel h ns ch :
  h !! curr_state = Some (mkState StartState ns) →
  check_self (S fuel) h curr_state ch = Some false.
Proof. intros Hst. cbn. by rewrite Hst. Qed.

(** The answers of the states built for a pattern. *)
Lemma check_self_token p h h' self ns ch k fuel :
  h !! curr_state = Some (mkState StartState ns) →
  __init__ p h = (h', Ok self) →
  k < length p → k + 2 ≤ fuel →
  check_self fuel h' (length h + k) ch = Some (token_accepts p k ch).
Proof.
  intros Hst Hrun.
  destruct (__init___objects _ _ _ _ _ Hrun Hst) as [Hobj _].
  destruct (__init___heap _ _ _ _ _ Hrun Hst) as (_ & Hst' & _).
  cbn [class_of] in Hst'.
  revert fuel. induction k as [|k IH]; intros fuel Hk Hfuel.
  - destruct (lookup_lt_is_Some_2 p 0 Hk) as [c Hc].
    destruct fuel as [|[|fuel]]; [lia..|].
    rewrite check_self_S, token_accepts_unfold, (Hobj 0 c Hc), Hc.
    cbn [mbind option_bind tmp_at]. unfold state_for, in_star_plus.
    destruct (c =? DOT)%N; [done|].
    destruct (c =? STAR)%N.
    { cbn [class_of next_states StarState__init__ orb].
      rewrite any_check_self_one. by erewrite check_self_start. }
    destruct (c =? PLUS)%N; [|done].
    cbn [class_of PlusState__init__ orb]. by erewrite check_self_start.
  - destruct (lookup_lt_is_Some_2 p (S k) Hk) as [c Hc].
    destruct fuel as [|fuel]; [lia|].
    rewrite check_self_S, token_accepts_unfold, (Hobj (S k) c Hc), Hc.
    cbn [mbind option_bind tmp_at]. unfold state_for, in_star_plus.
    destruct (c =? DOT)%N; [done|].
    destruct (c =? STAR)%N.
    { cbn [class_of next_states StarState__init__ orb].
      rewrite any_check_self_one. apply IH; lia. }
    destruct (c =? PLUS)%N; [|done].
    cbn [class_of PlusState__init__ orb]. apply IH; lia.
Qed.

Lemma check_self_termination p h h' self st ch fuel :
  h !! curr_state = Some st →
  __init__ p h = (h', Ok self) →
  check_self (S fuel) h' (length h + length p) ch = Some false.
Proof.
  intros Hst Hrun.
  destruct (__init___objects _ _ _ _ _ Hrun Hst) as [_ Hterm].
  cbn. by rewrite Hterm.
Qed.

(** Objects that existed before a construction answer as before. *)
Lemma check_self_frame h h' ch :
  heap_ok h →
  (∃ ns', h' !! curr_state = Some (mkState StartState ns')) →
  (∀ k, k < length h → k ≠ curr_state → h' !! k = h !! k) →
  ∀ fuel a, a < length h → check_self fuel h' a ch = check_self fuel h a ch.
Proof.
  intros [[ns Hstart] Hall] [ns' Hstart'] Hframe.
  induction fuel as [|fuel IH]; intros a Ha; [done|].
  destruct (decide (a = curr_state)) as [->|Hne].
  { by rewrite (check_self_start fuel h ns ch Hstart),
      (check_self_start fuel h' ns' ch Hstart'). }
  rewrite !check_self_S, Hframe by done.
  destruct (h !! a) as [st|] eqn:Hst; [|done].
  cbn [mbind option_bind]. specialize (Hall a st Hst). unfold state_ok in Hall.
  destruct (class_of st) as [| | | |cs|cs]; try done.
  - destruct Hall as [Hcs ->]. rewrite !any_check_self_one. apply IH. lia.
  - destruct Hall as [Hcs _]. apply IH. lia.
Qed.

(** ** [check_next] *)

Lemma first_accepting_seq (check : nat → option bool) (g : nat → bool)
    base n m i :
  i + m = n →
  (∀ k, k < n → check (base + k) = Some (g k)) →
  check (base + n) = Some false →
  first_accepting check (seq (base + i) m ++ [base + n])
  = Some match find g (seq i m) with
         | Some k => Returns (base + k)
         | None => NotImplementedError "rejected string"
         end.
Proof.
  intros Him Hcheck Hlast. revert i Him.
  induction m as [|m IH]; intros i Him.
  - cbn. by rewrite Hlast.
  - cbn [seq app first_accepting find]. rewrite Hcheck by lia.
    cbn [mbind option_bind]. destruct (g i); [done|].
    rewrite <- Nat.add_succ_r. apply IH. lia.
Qed.

Lemma first_accepting_app (c1 c2 : nat → option bool) l l' a :
  (∀ b, b ∈ l → c2 b = c1 b) →
  first_accepting c1 l = Some (Returns a) →
  first_accepting c2 (l ++ l') = Some (Returns a).
Proof.
  induction l as [|b l IH]; intros Heq Hfirst; [done|].
  cbn in *. rewrite Heq by left.
  destruct (c1 b) as [[]|]; cbn in *; [done| |done].
  apply IH; [|done]. intros b' Hb'. apply Heq. by right.
Qed.

End StateMethods.

(** X13: the heaps of the program are well formed, and stay so.  The
    heap the class body leaves is, and every run of the constructor,
    also one that raises, keeps it so: the start state sits at
    [curr_state] and lists existing objects only, a quantifier state
    refers to an object older than itself and lists it alone, and no
    other state lists anything. *)
Theorem X13_heap_stays_well_formed :
  heap_ok initial_heap
  ∧ ∀ (p : list N) (h h' : list State) (r : result RegexFSM),
      heap_ok h → __init__ p h = (h', r) → heap_ok h'.
Proof.
  split; [apply heap_ok_initial|].
  intros p h h' r. apply __init___heap_ok.
Qed.

Lemma X13_witness :
  heap_ok initial_heap
  ∧ heap_ok (__init__ (of_string "a*") initial_heap).1.
Proof.
  assert (Hok : heap_ok initial_heap)
    by exact (proj1 X13_heap_stays_well_formed).
  split; [exact Hok|].
  exact (proj2 X13_heap_stays_well_formed (of_string "a*") initial_heap
           _ _ Hok eq_refl).
Defined.

(** X14: what the states built for a pattern answer to [check_self].
    The state for a ['.'] accepts every character, the state for an
    ordinary character accepts that character only, and the state for a
    quantifier answers what the state before it answers: nothing at
    all when the quantifier is the first character of the pattern.  The
    terminating state accepts nothing. *)
Theorem X14_check_self_of_built_states
    (p : list N) (h h' : list State) self ns ch k fuel :
  h !! curr_state = Some (mkState StartState ns) →
  __init__ p h = (h', Ok self) →
  k < length p → k + 2 ≤ fuel →
  check_self fuel h' (length h + k) ch = Some (token_accepts p k ch)
  ∧ check_self fuel h' (length h + length p) ch = Some false.
Proof.
  intros Hst Hrun Hk Hfuel. split.
  - by eapply check_self_token.
  - destruct fuel as [|fuel]; [lia|]. by eapply check_self_termination.
Qed.

Lemma X14_witness :
  let p := of_string "a**" in
  let r := __init__ p initial_heap in
  initial_heap !! curr_state = Some (mkState StartState [])
  ∧ r = (r.1, Ok (mkRegexFSM p))
  ∧ 2 < length p ∧ 2 + 2 ≤ 4
  ∧ check_self 4 r.1 (length initial_heap + 2) 97%N
    = Some (token_accepts p 2 97%N)
  ∧ check_self 4 r.1 (length initial_heap + length p) 97%N = Some false.
Proof.
  intros p r.
  assert (Hst : initial_heap !! curr_state = Some (mkState StartState []))
    by reflexivity.
  assert (Hr : r = (r.1, Ok (mkRegexFSM p))) by reflexivity.
  assert (Hk : 2 < length p) by (cbn; lia).
  assert (Hfuel : 2 + 2 ≤ 4) by lia.
  split; [exact Hst|]. split; [exact Hr|]. split; [exact Hk|].
  split; [exact Hfuel|].
  exact (X14_check_self_of_built_states p initial_heap r.1 (mkRegexFSM p)
           [] 97%N 2 4 Hst Hr Hk Hfuel).
Defined.

(** X15: [check_next] on the start state after the first construction.
    When the start state lists nothing yet, after [RegexFSM(p)] it
    returns the state built for the first position of [p] whose state
    accepts the character, wherever that position is in the pattern, and
    raises [NotImplementedError("rejected string")] when there is none. *)
Theorem X15_check_next_of_start_state
    (p : list N) (h h' : list State) self ch fuel :
  h !! curr_state = Some (mkState StartState []) →
  __init__ p h = (h', Ok self) →
  length p < fuel →
  check_next fuel h' curr_state ch
  = Some match find (λ k, token_accepts p k ch) (seq 0 (length p)) with
         | Some k => Returns (length h + k)
         | None => NotImplementedError "rejected string"
         end.
Proof.
  intros Hst Hrun Hfuel.
  destruct (__init___heap _ _ _ _ _ Hrun Hst) as (_ & Hst' & _).
  unfold check_next. rewrite Hst'. cbn [mbind option_bind next_states app].
  rewrite seq_S.
  rewrite <- (Nat.add_0_r (length h)) at 1.
  apply first_accepting_seq; [done| |].
  - intros k Hk. eapply check_self_token; [done..|lia].
  - destruct fuel as [|fuel]; [lia|]. by eapply check_self_termination.
Qed.

Lemma X15_witness :
  let p := of_string "ab.a" in
  let r := __init__ p initial_heap in
  initial_heap !! curr_state = Some (mkState StartState [])
  ∧ r = (r.1, Ok (mkRegexFSM p))
  ∧ length p < 5
  ∧ check_next 5 r.1 curr_state 98%N = Some (Returns 2)
  ∧ check_next 5 r.1 curr_state 122%N = Some (Returns 3).
Proof.
  intros p r.
  assert (Hst : initial_heap !! curr_state = Some (mkState StartState []))
    by reflexivity.
  assert (Hr : r = (r.1, Ok (mkRegexFSM p))) by reflexivity.
  assert (Hfuel : length p < 5) by (cbn; lia).
  split; [exact Hst|]. split; [exact Hr|]. split; [exact Hfuel|].
  split.
  - exact (X15_check_next_of_start_state p initial_heap r.1 (mkRegexFSM p)
             98%N 5 Hst Hr Hfuel).
  - exact (X15_check_next_of_start_state p initial_heap r.1 (mkRegexFSM p)
             122%N 5 Hst Hr Hfuel).
Defined.

(** X16: the states of earlier patterns shadow those of later ones.
    Whenever [check_next] on the start state returns a state, it returns
    that same state after any further successful construction. *)
Theorem X16_earlier_patterns_shadow_later_ones
    (p : list N) (h h' : list State) self ch fuel a :
  heap_ok h →
  __init__ p h = (h', Ok self) →
  check_next fuel h curr_state ch = Some (Returns a) →
  check_next fuel h' curr_state ch = Some (Returns a).
Proof.
  intros Hok Hrun Hnext.
  destruct Hok as [[ns Hst] Hall] eqn:Hok'. clear Hok'.
  destruct (__init___heap _ _ _ _ _ Hrun Hst) as (_ & Hst' & Hframe).
  unfold check_next in *. rewrite Hst in Hnext. rewrite Hst'.
  cbn [mbind option_bind next_states class_of] in *.
  eapply first_accepting_app; [|done].
  intros b Hb. apply check_self_frame; [done|by eexists|done|].
  pose proof (Hall _ _ Hst) as Hns. unfold state_ok in Hns. cbn in Hns.
  by apply (proj1 (Forall_forall _ _) Hns).
Qed.

Lemma X16_witness :
  let h := (__init__ (of_string "a") initial_heap).1 in
  let r := __init__ (of_string "b") h in
  heap_ok h
  ∧ r = (r.1, Ok (mkRegexFSM (of_string "b")))
  ∧ check_next 3 h curr_state 97%N = Some (Returns 1)
  ∧ check_next 3 r.1 curr_state 97%N = Some (Returns 1).
Proof.
  intros h r.
  assert (Hok : heap_ok h).
  { apply (__init___heap_ok (of_string "a") initial_heap h
             (__init__ (of_string "a") initial_heap).2);
      [apply heap_ok_initial|reflexivity]. }
  assert (Hr : r = (r.1, Ok (mkRegexFSM (of_string "b")))) by reflexivity.
  assert (Hnext : check_next 3 h curr_state 97%N = Some (Returns 1))
    by reflexivity.
  split; [exact Hok|]. split; [exact Hr|]. split; [exact Hnext|].
  exact (X16_earlier_patterns_shadow_later_ones (of_string "b") h r.1
           (mkRegexFSM (of_string "b")) 97%N 3 1 Hok Hr Hnext).
Defined.

(** X17: the constructor never chains the states.  The state built for
    a character that is not a quantifier, and the terminating state,
    list no next state, so [check_next] on them raises
    [NotImplementedError("rejected string")] for every character. *)
Theorem X17_check_next_of_plain_states
    (p : list N) (h h' : list State) self st ch fuel :
  h !! curr_state = Some st →
  __init__ p h = (h', Ok self) →
  (∀ k c, p !! k = Some c → in_star_plus c = false →
     check_next fuel h' (length h + k) ch
     = Some (NotImplementedError "rejected string"))
  ∧ check_next fuel h' (length h + length p) ch
    = Some (NotImplementedError "rejected string").
Proof.
  intros Hst Hrun.
  destruct (__init___objects _ _ _ _ _ Hrun Hst) as [Hobj Hterm].
  unfold check_next. split.
  - intros k c Hk Hc. rewrite (Hobj k c Hk). unfold state_for.
    unfold in_star_plus in Hc. apply orb_false_iff in Hc as [-> ->].
    by destruct (c =? DOT)%N.
  - by rewrite Hterm.
Qed.

Lemma X17_witness :
  let p := of_string "ab" in
  let r := __init__ p initial_heap in
  initial_heap !! curr_state = Some StartState__init__
  ∧ r = (r.1, Ok (mkRegexFSM p))
  ∧ check_next 9 r.1 (length initial_heap + length p) 98%N
    = Some (NotImplementedError "rejected string").
Proof.
  intros p r.
  assert (Hst : initial_heap !! curr_state = Some StartState__init__)
    by reflexivity.
  assert (Hr : r = (r.1, Ok (mkRegexFSM p))) by reflexivity.
  split; [exact Hst|]. split; [exact Hr|].
  exact (proj2 (X17_check_next_of_plain_states p initial_heap r.1
                  (mkRegexFSM p) StartState__init__ 98%N 9 Hst Hr)).
Defined.

(** X18: [check_next] on a quantifier state hands back the state the
    quantifier was built around, when that state accepts the character,
    and raises otherwise; a quantifier that opens the pattern was built
    around the start state and always raises. *)
Theorem X18_check_next_of_quantifier_states
    (p : list N) (h h' : list State) self ns q ch k fuel :
  h !! curr_state = Some (mkState StartState ns) →
  __init__ p h = (h', Ok self) →
  p !! k = Some q → in_star_plus q = true →
  k + 1 ≤ fuel →
  check_next fuel h' (length h + k) ch
  = Some (if match k with
             | O => false
             | S k' => token_accepts p k' ch
             end
          then Returns (tmp_at (length h) k)
          else NotImplementedError "rejected string").
Proof.
  intros Hst Hrun Hk Hq Hfuel.
  destruct (__init___objects _ _ _ _ _ Hrun Hst) as [Hobj _].
  destruct (__init___heap _ _ _ _ _ Hrun Hst) as (_ & Hst' & _).
  cbn [class_of] in Hst'.
  assert (Hnexts : next_states (state_for q (tmp_at (length h) k))
                   = [tmp_at (length h) k]).
  { unfold state_for, in_star_plus in *.
    apply orb_true_iff in Hq as [->%N.eqb_eq| ->%N.eqb_eq]; done. }
  unfold check_next. rewrite (Hobj k q Hk).
  cbn [mbind option_bind]. rewrite Hnexts. cbn [first_accepting].
  destruct k as [|k]; cbn [tmp_at].
  - destruct fuel as [|fuel]; [lia|].
    by rewrite (check_self_start _ _ _ _ Hst').
  - apply lookup_lt_Some in Hk.
    rewrite (check_self_token p h h' self ns ch k fuel) by (done || lia).
    cbn. by destruct (token_accepts p k ch).
Qed.

Lemma X18_witness :
  let p := of_string "a*" in
  let r := __init__ p initial_heap in
  initial_heap !! curr_state = Some (mkState StartState [])
  ∧ r = (r.1, Ok (mkRegexFSM p))
  ∧ p !! 1 = Some STAR ∧ in_star_plus STAR = true ∧ 1 + 1 ≤ 2
  ∧ check_next 2 r.1 (length initial_heap + 1) 97%N = Some (Returns 1).
Proof.
  intros p r.
  assert (Hst : initial_heap !! curr_state = Some (mkState StartState []))
    by reflexivity.
  assert (Hr : r = (r.1, Ok (mkRegexFSM p))) by reflexivity.
  assert (Hfuel : 1 + 1 ≤ 2) by lia.
  split; [exact Hst|]. split; [exact Hr|]. split; [reflexivity|].
  split; [reflexivity|]. split; [exact Hfuel|].
  exact (X18_check_next_of_quantifier_states p initial_heap r.1
           (mkRegexFSM p) [] STAR 97%N 1 2 Hst Hr eq_refl eq_refl Hfuel).
Defined.
